(** * Scheduling allocator and background worker of the social content API

    A shallow embedding of [app/crud.py] ([bulk_schedule_posts],
    [get_post], [publish_post], [delete_post], [get_analytics_summary]),
    [app/routers/bulk_operations.py] and [app/worker.py]
    ([process_scheduled_posts], [sync_post_analytics]), with the facts the
    specification states about them and further facts the code shows. *)

From Stdlib Require Import ZArith List String Ascii Bool Lia Permutation Sorted.
From Stdlib Require Import SpecFloat.
Import ListNotations.
Local Open Scope Z_scope.

(** ** Python values the code relies on *)

Module Py.

(** Exceptions the modelled code can raise.  [ExternalError] stands for
    whatever a LinkedIn HTTP call raises ([requests] errors), [DatabaseError]
    for what a SQLAlchemy call raises. *)
Inductive exn : Type :=
| TypeError | ValueError | IndexError | KeyError
| ZeroDivisionError | OverflowError
| ExternalError | DatabaseError.

(** A computation either returns or raises. *)
Inductive outcome (A : Type) : Type :=
| Returned (a : A)
| Raised (e : exn).
Arguments Returned {A} a.
Arguments Raised {A} e.

Definition bind {A B} (c : outcome A) (k : A -> outcome B) : outcome B :=
  match c with
  | Returned a => k a
  | Raised e => Raised e
  end.

Notation "x <- c ;; k" := (bind c (fun x => k))
  (at level 61, c at next level, right associativity).
Notation "' p <- c ;; k" := (bind c (fun x => match x with p => k end))
  (at level 61, p pattern, c at next level, right associativity).

(** Truth value of an optional string: [None] and [""] are falsy. *)
Definition truthy (s : option string) : bool :=
  match s with
  | None => false
  | Some EmptyString => false
  | Some _ => true
  end.

(** [l[i]] on a list. *)
Definition item {A} (l : list A) (i : nat) : outcome A :=
  match nth_error l i with
  | Some a => Returned a
  | None => Raised IndexError
  end.

(** [s.split(":")]: one piece more than there are colons. *)
Fixpoint split_colon (s : string) : list string :=
  match s with
  | EmptyString => [EmptyString]
  | String c rest =>
      if Ascii.eqb c ":"%char then EmptyString :: split_colon rest
      else match split_colon rest with
           | piece :: pieces => String c piece :: pieces
           | [] => [String c EmptyString]
           end
  end.

(** *** Naive datetimes

    A naive [datetime] is its number of microseconds since
    0001-01-01T00:00:00, a [date] its proleptic Gregorian ordinal
    (0001-01-01 is day 1, a Monday).  Python compares naive datetimes field
    by field, which is the order of these numbers. *)
Definition datetime := Z.
Definition date := Z.

Definition US_PER_SECOND : Z := 1000000.
Definition US_PER_MINUTE : Z := 60 * US_PER_SECOND.
Definition US_PER_HOUR : Z := 60 * US_PER_MINUTE.
Definition US_PER_DAY : Z := 24 * US_PER_HOUR.
Definition MAXORDINAL : Z := 3652059.
Definition MAX_DELTA_DAYS : Z := 999999999.

(** [t.date()] *)
Definition date_of (t : datetime) : date := t / US_PER_DAY + 1.

(** [datetime.combine(d, datetime.min.time())] *)
Definition combine_min (d : date) : datetime := (d - 1) * US_PER_DAY.

(** [d.weekday()], Monday is 0. *)
Definition weekday (d : date) : Z := (d + 6) mod 7.

(** [d + timedelta(days=n)] on a date. *)
Definition date_add_days (d : date) (n : Z) : outcome date :=
  if MAX_DELTA_DAYS <? Z.abs n then Raised OverflowError
  else if (1 <=? d + n) && (d + n <=? MAXORDINAL) then Returned (d + n)
  else Raised OverflowError.

(** [t + timedelta(days=n)] on a datetime. *)
Definition datetime_add_days (t : datetime) (n : Z) : outcome datetime :=
  if MAX_DELTA_DAYS <? Z.abs n then Raised OverflowError
  else if (1 <=? date_of t + n) && (date_of t + n <=? MAXORDINAL)
       then Returned (t + n * US_PER_DAY)
  else Raised OverflowError.

(** [t + timedelta(seconds=n)] *)
Definition datetime_add_seconds (t : datetime) (n : Z) : outcome datetime :=
  let r := t + n * US_PER_SECOND in
  if (0 <=? r) && (r <? MAXORDINAL * US_PER_DAY) then Returned r
  else Raised OverflowError.

(** [(b - a).days]: timedelta normalises to a floor. *)
Definition delta_days (b a : datetime) : Z := (b - a) / US_PER_DAY.

(** [t.replace(hour=h, minute=m)] keeps the date, the seconds and the
    microseconds. *)
Definition replace_hm (t : datetime) (hour minute : Z) : outcome datetime :=
  if (0 <=? hour) && (hour <=? 23) then
    if (0 <=? minute) && (minute <=? 59) then
      Returned ((t / US_PER_DAY) * US_PER_DAY
                + hour * US_PER_HOUR + minute * US_PER_MINUTE
                + t mod US_PER_MINUTE)
    else Raised ValueError
  else Raised ValueError.

(** *** Floats

    Python floats are IEEE 754 binary64 values; [spec_float] with precision 53
    and exponent bound 1024 is their specification.  Integers below 2^53
    convert exactly. *)
Definition float_of_int (z : Z) : spec_float := binary_normalize 53 1024 z 0 false.

(** [a / b] on integers: the double nearest to the quotient of the two
    integers themselves, whatever their size (they are not converted
    first); [SFdiv] divides the mantissas [|a|] and [|b|] exactly and rounds
    once, to even.  A zero quotient has the sign of the operands; a quotient
    beyond the doubles raises. *)
Definition truediv (a b : Z) : outcome spec_float :=
  if b =? 0 then Raised ZeroDivisionError
  else
    match Z.abs a, Z.abs b with
    | Zpos ma, Zpos mb =>
        match SFdiv 53 1024 (S754_finite (a <? 0) ma 0) (S754_finite (b <? 0) mb 0) with
        | S754_infinity _ => Raised OverflowError
        | quotient => Returned quotient
        end
    | _, _ => Returned (S754_zero (xorb (a <? 0) (b <? 0)))
    end.

(** [x * y] on floats. *)
Definition fmul (x y : spec_float) : spec_float := SFmul 53 1024 x y.

(** [x <= k] for a float and an integer. *)
Definition float_le_int (x : spec_float) (k : Z) : bool :=
  SFleb x (float_of_int k).

(** [int(x)]: truncation towards zero. *)
Definition int_of_float (x : spec_float) : outcome Z :=
  match x with
  | S754_zero _ => Returned 0
  | S754_finite s m e =>
      let v := Z.shiftl (Zpos m) e in
      Returned (if s then - v else v)
  | S754_infinity _ => Raised OverflowError
  | S754_nan => Raised ValueError
  end.

End Py.
Import Py.

(** ** Data model ([app/models.py]) *)

Inductive PostStatus : Type := DRAFT | SCHEDULED | PUBLISHED | FAILED.

Definition PostStatus_eqb (a b : PostStatus) : bool :=
  match a, b with
  | DRAFT, DRAFT | SCHEDULED, SCHEDULED
  | PUBLISHED, PUBLISHED | FAILED, FAILED => true
  | _, _ => false
  end.

(** A row of [posts]; nullable columns are options. *)
Record Post : Type := mkPost {
  post_id : Z;
  author_id : Z;
  content : string;
  image_url : option string;
  status : PostStatus;
  scheduled_time : option datetime;
  published_time : option datetime;
  linkedin_post_id : option string;
  linkedin_share_url : option string
}.

(** A row of [users], with the LinkedIn credential columns. *)
Record User : Type := mkUser {
  user_id : Z;
  linkedin_access_token : option string;
  linkedin_refresh_token : option string;
  linkedin_token_expires_at : option datetime;
  linkedin_profile_id : option string
}.

(** A row of [analytics].  The integer columns are nullable and get their
    default 0 only when the row is inserted: on an object that was
    constructed and not yet flushed they read [None]. *)
Record Analytics : Type := mkAnalytics {
  an_post_id : Z;
  an_user_id : Z;
  impressions : option Z;
  likes : option Z;
  comments : option Z;
  shares : option Z;
  engagement_rate : option Z;
  last_synced : option datetime
}.

(** The store: each table in its storage order, which is the order a query
    without ORDER BY is taken to return rows in. *)
Record DB : Type := mkDB {
  posts : list Post;
  users : list User;
  analytics : list Analytics
}.

Definition set_posts (db : DB) (ps : list Post) : DB :=
  mkDB ps (users db) (analytics db).
Definition set_users (db : DB) (us : list User) : DB :=
  mkDB (posts db) us (analytics db).
Definition set_analytics (db : DB) (al : list Analytics) : DB :=
  mkDB (posts db) (users db) al.

(** Attribute assignment on the first row a predicate selects. *)
Fixpoint update_first {A} (sel : A -> bool) (f : A -> A) (rows : list A) : list A :=
  match rows with
  | [] => []
  | r :: rest => if sel r then f r :: rest else r :: update_first sel f rest
  end.

(** [query.first()] *)
Definition first {A} (sel : A -> bool) (rows : list A) : option A := find sel rows.

(** ** The allocator ([crud.bulk_schedule_posts]) *)

(** The entries of [schedule_config] the code reads, each with the JSON type
    the code expects of it; [None] is an absent key. *)
Record ScheduleConfig : Type := mkConfig {
  cfg_start_date : option string;
  cfg_end_date : option string;
  cfg_time_slots : option (list string);
  cfg_days : option (list string);
  cfg_weeks_ahead : option Z;
  cfg_days_ahead : option Z
}.

(** [schedule_config.get(key, default)] *)
Definition get {A} (entry : option A) (default : A) : A :=
  match entry with
  | Some v => v
  | None => default
  end.

(** The literal [day_map]. *)
Definition day_map (day : string) : option Z :=
  if String.eqb day "Monday" then Some 0
  else if String.eqb day "Tuesday" then Some 1
  else if String.eqb day "Wednesday" then Some 2
  else if String.eqb day "Thursday" then Some 3
  else if String.eqb day "Friday" then Some 4
  else if String.eqb day "Saturday" then Some 5
  else if String.eqb day "Sunday" then Some 6
  else None.

(** [[day_map[day] for day in days if day in day_map]] *)
Fixpoint weekdays_of (days : list string) : list Z :=
  match days with
  | [] => []
  | day :: rest =>
      match day_map day with
      | Some n => n :: weekdays_of rest
      | None => weekdays_of rest
      end
  end.

Definition optimal_hours : list Z := [9; 12; 17; 20].

Definition schedule_times := list (Z * datetime).

Section Allocator.

(** The two library parsers the allocator calls: [datetime.fromisoformat]
    (on an absent entry it is handed [None] and raises [TypeError]) and
    [int] on a string. *)
Variable fromisoformat : string -> outcome datetime.
Variable int_of_str : string -> outcome Z.

Definition fromisoformat_entry (entry : option string) : outcome datetime :=
  match entry with
  | Some s => fromisoformat s
  | None => Raised TypeError
  end.

(** [time_parts = slot.split(":")] followed by
    [hour, minute = int(time_parts[0]), int(time_parts[1])] and
    [base.replace(hour=hour, minute=minute)]. *)
Definition slot_time (base : datetime) (slot : string) : outcome datetime :=
  let time_parts := split_colon slot in
  p0 <- item time_parts 0 ;;
  hour <- int_of_str p0 ;;
  p1 <- item time_parts 1 ;;
  minute <- int_of_str p1 ;;
  replace_hm base hour minute.

(** *** evenly_spaced, [posts_per_day <= len(time_slots)]:
    the loop over [posts] with its [current_date] and [time_slot_index]. *)
Fixpoint evenly_by_slots (time_slots : list string) (end_date : datetime)
    (todo : list Post) (current_date : datetime) (time_slot_index : nat)
    : outcome schedule_times :=
  match todo with
  | [] => Returned []
  | post :: rest =>
      if end_date <? current_date then Returned []
      else
        slot <- item time_slots time_slot_index ;;
        scheduled <- slot_time current_date slot ;;
        if (List.length time_slots <=? S time_slot_index)%nat then
          next_date <- datetime_add_days current_date 1 ;;
          tl <- evenly_by_slots time_slots end_date rest next_date 0%nat ;;
          Returned ((post_id post, scheduled) :: tl)
        else
          tl <- evenly_by_slots time_slots end_date rest current_date
                  (S time_slot_index) ;;
          Returned ((post_id post, scheduled) :: tl)
  end.

(** *** evenly_spaced, the other branch: [enumerate(posts)] with
    [day_offset = int(i * days_per_post)] and the first slot only. *)
Fixpoint evenly_by_days (time_slots : list string) (start_date : datetime)
    (days_per_post : spec_float) (i : Z) (todo : list Post)
    : outcome schedule_times :=
  match todo with
  | [] => Returned []
  | post :: rest =>
      day_offset <- int_of_float (fmul (float_of_int i) days_per_post) ;;
      current_date <- datetime_add_days start_date day_offset ;;
      slot <- item time_slots 0 ;;
      scheduled <- slot_time current_date slot ;;
      tl <- evenly_by_days time_slots start_date days_per_post (i + 1) rest ;;
      Returned ((post_id post, scheduled) :: tl)
  end.

Definition evenly_spaced (cfg : ScheduleConfig) (selected : list Post)
    : outcome schedule_times :=
  start_date <- fromisoformat_entry (cfg_start_date cfg) ;;
  end_date <- fromisoformat_entry (cfg_end_date cfg) ;;
  let time_slots := get (cfg_time_slots cfg) ["09:00"%string] in
  let days_between := delta_days end_date start_date + 1 in
  posts_per_day <- truediv (Z.of_nat (List.length selected)) days_between ;;
  if float_le_int posts_per_day (Z.of_nat (List.length time_slots)) then
    evenly_by_slots time_slots end_date selected start_date 0%nat
  else
    days_per_post <- truediv days_between (Z.of_nat (List.length selected)) ;;
    evenly_by_days time_slots start_date days_per_post 0 selected.

(** *** specific_days *)

(** The inner [for time_slot in time_slots] on one date. *)
Fixpoint slots_of_day (now : datetime) (current_date : date)
    (time_slots : list string) : outcome (list datetime) :=
  match time_slots with
  | [] => Returned []
  | time_slot :: rest =>
      scheduled <- slot_time (combine_min current_date) time_slot ;;
      tl <- slots_of_day now current_date rest ;;
      Returned (if now <? scheduled then scheduled :: tl else tl)
  end.

(** [while current_date <= end_date]; [fuel] bounds the number of
    iterations and is never the reason the loop stops when it is at least
    [end_date - current_date + 1]. *)
Fixpoint possible_dates_from (fuel : nat) (now : datetime) (weekdays : list Z)
    (time_slots : list string) (end_date current_date : date)
    : outcome (list datetime) :=
  match fuel with
  | O => Returned []
  | S fuel' =>
      if current_date <=? end_date then
        today <- (if existsb (Z.eqb (weekday current_date)) weekdays
                  then slots_of_day now current_date time_slots
                  else Returned []) ;;
        next_date <- date_add_days current_date 1 ;;
        later <- possible_dates_from fuel' now weekdays time_slots end_date next_date ;;
        Returned (today ++ later)
      else Returned []
  end.

(** [for i, post in enumerate(posts): if i < len(possible_dates)] *)
Fixpoint assign_dates (todo : list Post) (possible_dates : list datetime)
    : schedule_times :=
  match todo, possible_dates with
  | post :: rest, d :: ds => (post_id post, d) :: assign_dates rest ds
  | _, _ => []
  end.

Definition specific_days (cfg : ScheduleConfig) (selected : list Post)
    (now : datetime) : outcome schedule_times :=
  let days := get (cfg_days cfg) ["Monday"%string] in
  let time_slots := get (cfg_time_slots cfg) ["09:00"%string] in
  let weeks_ahead := get (cfg_weeks_ahead cfg) 4 in
  let weekdays := weekdays_of days in
  let current_date := date_of now in
  end_date <- date_add_days current_date (7 * weeks_ahead) ;;
  possible_dates <- possible_dates_from (Z.to_nat (end_date - current_date + 1))
                      now weekdays time_slots end_date current_date ;;
  Returned (assign_dates selected possible_dates).

(** *** optimal_times *)

(** The inner [for hour in optimal_hours]; returns the assignments of the
    day and the posts from [post_index] on. *)
Fixpoint optimal_day (now : datetime) (current_date : date) (hours : list Z)
    (todo : list Post) : outcome (schedule_times * list Post) :=
  match hours with
  | [] => Returned ([], todo)
  | hour :: hours' =>
      match todo with
      | [] => Returned ([], [])
      | post :: rest =>
          scheduled <- replace_hm (combine_min current_date) hour 0 ;;
          if now <? scheduled then
            '(tl, remaining) <- optimal_day now current_date hours' rest ;;
            Returned ((post_id post, scheduled) :: tl, remaining)
          else optimal_day now current_date hours' todo
      end
  end.

(** [for day in range(days_ahead)] *)
Fixpoint optimal_from (days : nat) (now : datetime) (current_date : date)
    (todo : list Post) : outcome schedule_times :=
  match days with
  | O => Returned []
  | S days' =>
      '(today, remaining) <- optimal_day now current_date optimal_hours todo ;;
      next_date <- date_add_days current_date 1 ;;
      match remaining with
      | [] => Returned today
      | _ :: _ =>
          later <- optimal_from days' now next_date remaining ;;
          Returned (today ++ later)
      end
  end.

Definition optimal_times (cfg : ScheduleConfig) (selected : list Post)
    (now : datetime) : outcome schedule_times :=
  let days_ahead := get (cfg_days_ahead cfg) 14 in
  optimal_from (Z.to_nat days_ahead) now (date_of now) selected.

(** *** The whole function *)

(** The rows of [Post.id.in_(post_ids), Post.author_id == user_id]. *)
Definition selected_by (post_ids : list Z) (uid : Z) (p : Post) : bool :=
  existsb (Z.eqb (post_id p)) post_ids && (author_id p =? uid).

Definition compute_schedule (schedule_type : string) (cfg : ScheduleConfig)
    (selected : list Post) (now : datetime) : outcome schedule_times :=
  if String.eqb schedule_type "evenly_spaced" then evenly_spaced cfg selected
  else if String.eqb schedule_type "specific_days" then specific_days cfg selected now
  else if String.eqb schedule_type "optimal_times" then optimal_times cfg selected now
  else Returned [].

(** The final loop: the first selected post with the identifier gets the
    time and the status. *)
Definition schedule_post (post_ids : list Z) (uid : Z) (rows : list Post)
    (entry : Z * datetime) : list Post :=
  update_first
    (fun p => selected_by post_ids uid p && (post_id p =? fst entry))
    (fun p => mkPost (post_id p) (author_id p) (content p) (image_url p)
                SCHEDULED (Some (snd entry)) (published_time p)
                (linkedin_post_id p) (linkedin_share_url p))
    rows.

(** [bulk_schedule_posts]: the value ([None] or the preview list) or the
    exception, and the store afterwards.  An exception leaves before any
    attribute is assigned. *)
Definition bulk_schedule_posts (db : DB) (post_ids : list Z)
    (schedule_type : string) (cfg : ScheduleConfig) (uid : Z) (now : datetime)
    : outcome (option schedule_times) * DB :=
  let selected := filter (selected_by post_ids uid) (posts db) in
  if (List.length selected =? 0)%nat || negb (List.length selected =? List.length post_ids)%nat
  then (Returned None, db)
  else
    match compute_schedule schedule_type cfg selected now with
    | Raised e => (Raised e, db)
    | Returned times =>
        (Returned (Some times),
         set_posts db (fold_left (schedule_post post_ids uid) times (posts db)))
    end.

(** ** The route ([routers/bulk_operations.py]) *)

Inductive response : Type :=
| Ok200 (body : schedule_times)
| BadRequest400 (detail : string)
| ServerError500 (e : exn).

(** POST /bulk/schedule for an authenticated user; an exception the handler
    does not catch is answered with status 500. *)
Definition route_bulk_schedule (db : DB) (post_ids : list Z)
    (schedule_type : string) (cfg : ScheduleConfig) (uid : Z) (now : datetime)
    : response * DB :=
  match bulk_schedule_posts db post_ids schedule_type cfg uid now with
  | (Returned None, db') =>
      (BadRequest400 "Invalid post IDs or schedule configuration", db')
  | (Returned (Some schedule), db') => (Ok200 schedule, db')
  | (Raised e, db') => (ServerError500 e, db')
  end.

End Allocator.


(** ** The worker ([app/worker.py]) *)

(** The JSON object of the token endpoint: an absent key is [None]. *)
Record TokenData : Type := mkTokenData {
  td_access_token : option string;
  td_refresh_token : option string;
  td_expires_in : option Z
}.

(** The JSON object a publish call returns. *)
Record PublishResponse : Type := mkPublishResponse {
  resp_id : option string;
  resp_shareUrl : option string
}.

(** The dictionary [LinkedInAPI.get_post_analytics] builds. *)
Record AnalyticsData : Type := mkAnalyticsData {
  ad_likes : Z;
  ad_comments : Z;
  ad_shares : Z
}.

(** What the outside answers during the iteration for one post: the token
    endpoint, the publish call, whether the analytics bookkeeping that
    follows a publish raises, and whether the commit of the handler that
    catches this raises in turn (it does on a session whose flush failed,
    and on PostgreSQL after any statement that failed). *)
Record Answers : Type := mkAnswers {
  refresh_answer : outcome TokenData;
  publish_answer : outcome PublishResponse;
  bookkeeping_raises : bool;
  handler_commit_raises : bool
}.

(** What an observer of the worker sees. *)
Inductive event : Type :=
| RefreshCall (uid : Z)
| PublishCall (pid : Z) (with_image : bool)
| AnalyticsCall (pid : Z)
| StatusSet (pid : Z) (s : PostStatus)
| Commit.

Definition with_status (s : PostStatus) (p : Post) : Post :=
  mkPost (post_id p) (author_id p) (content p) (image_url p) s
    (scheduled_time p) (published_time p) (linkedin_post_id p)
    (linkedin_share_url p).

Definition with_published (now : datetime) (r : PublishResponse) (p : Post) : Post :=
  mkPost (post_id p) (author_id p) (content p) (image_url p) PUBLISHED
    (scheduled_time p) (Some now)
    (Some (get (resp_id r) EmptyString)) (Some (get (resp_shareUrl r) EmptyString)).

Definition update_post (db : DB) (pid : Z) (f : Post -> Post) : DB :=
  set_posts db (update_first (fun p => post_id p =? pid) f (posts db)).

Definition update_user (db : DB) (u : User) : DB :=
  set_users db (update_first (fun r => user_id r =? user_id u) (fun _ => u) (users db)).

(** [post.status = FAILED; db.commit()] *)
Definition mark_failed (db : DB) (pid : Z) : DB * list event :=
  (update_post db pid (with_status FAILED), [StatusSet pid FAILED; Commit]).

(** The three assignments of a token refresh, in order; the first that
    raises leaves the earlier ones on the user object. *)
Definition apply_token_data (now : datetime) (user : User) (td : TokenData)
    : User * option exn :=
  match td_access_token td with
  | None => (user, Some KeyError)
  | Some token =>
      let user1 :=
        mkUser (user_id user) (Some token)
          (match td_refresh_token td with
           | Some r => Some r
           | None => linkedin_refresh_token user
           end)
          (linkedin_token_expires_at user) (linkedin_profile_id user) in
      match td_expires_in td with
      | None => (user1, Some KeyError)
      | Some seconds =>
          match datetime_add_seconds now seconds with
          | Raised e => (user1, Some e)
          | Returned expires =>
              (mkUser (user_id user1) (linkedin_access_token user1)
                 (linkedin_refresh_token user1) (Some expires)
                 (linkedin_profile_id user1), None)
          end
      end
  end.

(** [expires_at and expires_at <= now] *)
Definition token_expired (now : datetime) (user : User) : bool :=
  match linkedin_token_expires_at user with
  | Some expires => expires <=? now
  | None => false
  end.

(** The row [Analytics(post_id, user_id, last_synced)] as it is inserted:
    the column defaults fill what the constructor was not given. *)
Definition inserted (a : Analytics) : Analytics :=
  mkAnalytics (an_post_id a) (an_user_id a)
    (Some (get (impressions a) 0)) (Some (get (likes a) 0))
    (Some (get (comments a) 0)) (Some (get (shares a) 0))
    (Some (get (engagement_rate a) 0)) (last_synced a).

(** *** [process_scheduled_posts] *)

(** From the publish call to the end of the [try] block, with the handler
    of the iteration: the store, what was observed, and whether an exception
    left the handler.  The handler assigns [FAILED] and commits; when that
    commit raises, the assignment is never stored and the exception leaves
    the loop. *)
Definition publish_and_record (now : datetime) (a : Answers) (db : DB)
    (post : Post) (user : User) : DB * list event * bool :=
  let pid := post_id post in
  let call := PublishCall pid (truthy (image_url post)) in
  match publish_answer a with
  | Raised _ =>
      let '(db', log) := mark_failed db pid in (db', call :: log, false)
  | Returned resp =>
      let db1 := update_post db pid (with_published now resp) in
      let log1 := [call; StatusSet pid PUBLISHED; Commit] in
      if bookkeeping_raises a then
        if handler_commit_raises a then
          (db1, log1 ++ [StatusSet pid FAILED], true)
        else
          let '(db', log) := mark_failed db1 pid in (db', log1 ++ log, false)
      else
        match first (fun r => an_post_id r =? pid) (analytics db1) with
        | Some _ => (db1, log1, false)
        | None =>
            (set_analytics db1
               (analytics db1 ++
                  [inserted (mkAnalytics pid (user_id user)
                               None None None None None (Some now))]),
             log1 ++ [Commit], false)
        end
  end.

(** One iteration of [for post in scheduled_posts]: the store, what was
    observed, and whether an exception left the iteration. *)
Definition publish_iteration (now : datetime) (a : Answers) (db : DB) (post : Post)
    : DB * list event * bool :=
  let pid := post_id post in
  match first (fun u => user_id u =? author_id post) (users db) with
  | None => (db, [], false)
  | Some user =>
      if negb (truthy (linkedin_access_token user)) then (mark_failed db pid, false)
      else if token_expired now user then
        if negb (truthy (linkedin_refresh_token user)) then (mark_failed db pid, false)
        else
          match refresh_answer a with
          | Raised _ =>
              let '(db', log) := mark_failed db pid in
              (db', RefreshCall (user_id user) :: log, false)
          | Returned td =>
              match apply_token_data now user td with
              | (user', Some _) =>
                  let '(db', log) := mark_failed (update_user db user') pid in
                  (db', RefreshCall (user_id user) :: log, false)
              | (user', None) =>
                  let '(db', log, escaped) :=
                    publish_and_record now a (update_user db user') post user' in
                  (db', RefreshCall (user_id user) :: Commit :: log, escaped)
              end
          end
      else publish_and_record now a db post user
  end.

(** The store and the events of an iteration. *)
Definition publish_post (now : datetime) (a : Answers) (db : DB) (post : Post)
    : DB * list event :=
  fst (publish_iteration now a db post).

(** The filter of the due-posts query. *)
Definition due (now : datetime) (p : Post) : bool :=
  PostStatus_eqb (status p) SCHEDULED &&
  match scheduled_time p with
  | Some t => (t <=? now + 5 * US_PER_MINUTE) && (now - 5 * US_PER_MINUTE <? t)
  | None => false
  end.

Definition scheduled_posts (now : datetime) (db : DB) : list Post :=
  filter (due now) (posts db).

(** [for post in scheduled_posts] inside the outer [try]: an exception
    that leaves an iteration is caught by the outer [except], which logs it,
    and [finally] closes the session; the posts after it are not looked
    at. *)
Fixpoint publish_all (now : datetime) (answers : Z -> Answers) (todo : list Post)
    (db : DB) : DB * list event :=
  match todo with
  | [] => (db, [])
  | post :: rest =>
      let '(db', log, escaped) :=
        publish_iteration now (answers (post_id post)) db post in
      if escaped then (db', log)
      else
        let '(db'', log') := publish_all now answers rest db' in
        (db'', log ++ log')
  end.

(** One cycle: the store afterwards and what was observed. *)
Definition process_scheduled_posts (now : datetime) (answers : Z -> Answers)
    (db : DB) : DB * list event :=
  publish_all now answers (scheduled_posts now db) db.

(** *** [sync_post_analytics] *)

Definition one_day_ago (now : datetime) : datetime := now - 1 * US_PER_DAY.
Definition one_week_ago (now : datetime) : datetime := now - 7 * US_PER_DAY.

(** A comparison with a NULL column is not true. *)
Definition at_or_after (t : option datetime) (bound : datetime) : bool :=
  match t with
  | Some v => bound <=? v
  | None => false
  end.

Definition at_or_before (t : option datetime) (bound : datetime) : bool :=
  match t with
  | Some v => v <=? bound
  | None => false
  end.

Definition is_set {A} (o : option A) : bool :=
  match o with
  | Some _ => true
  | None => false
  end.

(** [Post.analytics.has(Analytics.last_synced <= one_day_ago)]: a row of
    [analytics] for the post exists with the condition true. *)
Definition has_stale_analytics (now : datetime) (db : DB) (p : Post) : bool :=
  existsb (fun a => (an_post_id a =? post_id p)
                    && at_or_before (last_synced a) (one_day_ago now))
          (analytics db).

(** The filter of the sync query. *)
Definition needs_sync (now : datetime) (db : DB) (p : Post) : bool :=
  PostStatus_eqb (status p) PUBLISHED &&
  (is_set (linkedin_post_id p) &&
   (at_or_after (published_time p) (one_day_ago now)
    || (has_stale_analytics now db p
        && at_or_after (published_time p) (one_week_ago now)))).

(** [.limit(20).all()] *)
Definition posts_to_sync (now : datetime) (db : DB) : list Post :=
  firstn 20 (filter (needs_sync now db) (posts db)).

(** [posts_by_user]: a dictionary keeps its keys in insertion order. *)
Fixpoint group_add (uid : Z) (post : Post) (groups : list (Z * list Post))
    : list (Z * list Post) :=
  match groups with
  | [] => [(uid, [post])]
  | (u, ps) :: rest =>
      if u =? uid then (u, ps ++ [post]) :: rest
      else (u, ps) :: group_add uid post rest
  end.

Definition posts_by_user (to_sync : list Post) : list (Z * list Post) :=
  fold_left (fun groups post => group_add (author_id post) post groups) to_sync [].

(** The update of one record, from the three assignments of the fetched
    counts to [last_synced = now]: the object afterwards and the exception,
    if one was raised on the way. *)
Definition sync_record (now : datetime) (data : AnalyticsData) (a : Analytics)
    : Analytics * option exn :=
  let a1 :=
    mkAnalytics (an_post_id a) (an_user_id a) (impressions a)
      (Some (ad_likes data)) (Some (ad_comments data)) (Some (ad_shares data))
      (engagement_rate a) (last_synced a) in
  let total_engagement := ad_likes data + ad_comments data + ad_shares data in
  match impressions a1 with
  | None => (a1, Some TypeError)
  | Some shown =>
      if 0 <? shown then
        match (ratio <- truediv total_engagement shown ;;
               int_of_float (fmul ratio (float_of_int 10000))) with
        | Raised e => (a1, Some e)
        | Returned rate =>
            (mkAnalytics (an_post_id a1) (an_user_id a1) (impressions a1)
               (likes a1) (comments a1) (shares a1) (Some rate) (Some now), None)
        end
      else
        (mkAnalytics (an_post_id a1) (an_user_id a1) (impressions a1)
           (likes a1) (comments a1) (shares a1) (engagement_rate a1) (Some now),
         None)
  end.

(** The session of a sync cycle: what its queries see, and what has been
    committed.  Closing the session discards the difference. *)
Record Session : Type := mkSession {
  view : DB;
  durable : DB
}.

Definition commit (s : Session) : Session := mkSession (view s) (view s).
Definition on_view (f : DB -> DB) (s : Session) : Session :=
  mkSession (f (view s)) (durable s).

(** What the outside answers during a sync cycle. *)
Record SyncAnswers : Type := mkSyncAnswers {
  refresh_for : Z -> outcome TokenData;
  analytics_for : Z -> outcome AnalyticsData
}.

(** One iteration of [for post in posts]. *)
Definition sync_post (now : datetime) (w : SyncAnswers) (uid : Z)
    (acc : Session * list event) (post : Post) : Session * list event :=
  let '(s, log) := acc in
  let pid := post_id post in
  let log1 := log ++ [AnalyticsCall pid] in
  match analytics_for w pid with
  | Raised _ => (s, log1)
  | Returned data =>
      match first (fun r => an_post_id r =? pid) (analytics (view s)) with
      | Some row =>
          let '(row', raised) := sync_record now data row in
          let s1 := on_view (fun db =>
                      set_analytics db
                        (update_first (fun r => an_post_id r =? pid)
                           (fun _ => row') (analytics db))) s in
          match raised with
          | Some _ => (s1, log1)
          | None => (commit s1, log1 ++ [Commit])
          end
      | None =>
          let '(row', raised) :=
            sync_record now data
              (mkAnalytics pid uid None None None None None None) in
          let s1 := on_view (fun db =>
                      set_analytics db (analytics db ++ [inserted row'])) s in
          match raised with
          | Some _ => (s1, log1)
          | None => (commit s1, log1 ++ [Commit])
          end
      end
  end.

(** One iteration of [for user_id, posts in posts_by_user.items()]. *)
Definition sync_user (now : datetime) (w : SyncAnswers)
    (acc : Session * list event) (group : Z * list Post) : Session * list event :=
  let '(s, log) := acc in
  let '(uid, group_posts) := group in
  match first (fun u => user_id u =? uid) (users (view s)) with
  | None => (s, log)
  | Some user =>
      if negb (truthy (linkedin_access_token user)) then (s, log)
      else if token_expired now user then
        if negb (truthy (linkedin_refresh_token user)) then (s, log)
        else
          let log1 := log ++ [RefreshCall uid] in
          match refresh_for w uid with
          | Raised _ => (s, log1)
          | Returned td =>
              match apply_token_data now user td with
              | (user', Some _) => (on_view (fun db => update_user db user') s, log1)
              | (user', None) =>
                  fold_left (sync_post now w uid) group_posts
                    (commit (on_view (fun db => update_user db user') s),
                     log1 ++ [Commit])
              end
          end
      else fold_left (sync_post now w uid) group_posts (s, log)
  end.

(** One cycle: the committed store after [db.close()] and what was
    observed. *)
Definition sync_post_analytics (now : datetime) (w : SyncAnswers) (db : DB)
    : DB * list event :=
  let to_sync := posts_to_sync now db in
  let '(s, log) :=
    fold_left (sync_user now w) (posts_by_user to_sync) (mkSession db db, []) in
  (durable s, log).

(** The posts a cycle asked LinkedIn about. *)
Fixpoint analytics_calls (log : list event) : list Z :=
  match log with
  | [] => []
  | AnalyticsCall pid :: rest => pid :: analytics_calls rest
  | _ :: rest => analytics_calls rest
  end.

(** *** [crud.create_or_update_analytics] on an existing record

    The integer fields of the request body that were set are assigned to the
    record ([exclude_unset=True]); this is the only place [impressions]
    changes. *)
Record AnalyticsUpdate : Type := mkAnalyticsUpdate {
  upd_impressions : option Z;
  upd_likes : option Z;
  upd_comments : option Z;
  upd_shares : option Z
}.

Definition assign {A} (sent : option A) (old : option A) : option A :=
  match sent with
  | Some v => Some v
  | None => old
  end.

Definition update_analytics (u : AnalyticsUpdate) (a : Analytics) : Analytics :=
  mkAnalytics (an_post_id a) (an_user_id a)
    (assign (upd_impressions u) (impressions a))
    (assign (upd_likes u) (likes a))
    (assign (upd_comments u) (comments a))
    (assign (upd_shares u) (shares a))
    (engagement_rate a) (last_synced a).

(** ** Row operations of [app/crud.py] *)

(** [session.delete(row)] on the first row a predicate selects. *)
Fixpoint remove_first {A} (sel : A -> bool) (rows : list A) : list A :=
  match rows with
  | [] => []
  | r :: rest => if sel r then rest else r :: remove_first sel rest
  end.

Module Crud.

(** The filter [Post.id == post_id, Post.author_id == user_id]. *)
Definition owned_row (pid uid : Z) (p : Post) : bool :=
  (post_id p =? pid) && (author_id p =? uid).

(** [crud.get_post] *)
Definition get_post (db : DB) (pid : Z) : option Post :=
  first (fun p => post_id p =? pid) (posts db).

(** [crud.publish_post]: the returned row, [None] when the account owns no
    post with the identifier, and the store afterwards. *)
Definition publish_post (now : datetime) (db : DB) (pid uid : Z)
    (linkedin_id share_url : string) : option Post * DB :=
  match first (owned_row pid uid) (posts db) with
  | None => (None, db)
  | Some row =>
      let row' :=
        mkPost (post_id row) (author_id row) (content row) (image_url row)
          PUBLISHED (scheduled_time row) (Some now)
          (Some linkedin_id) (Some share_url) in
      (Some row',
       set_posts db (update_first (owned_row pid uid) (fun _ => row') (posts db)))
  end.

(** [crud.delete_post]: the relationship [Post.analytics] cascades the
    deletion to the metrics record of the post. *)
Definition delete_post (db : DB) (pid uid : Z) : option Post * DB :=
  match first (owned_row pid uid) (posts db) with
  | None => (None, db)
  | Some row =>
      (Some row,
       mkDB (remove_first (owned_row pid uid) (posts db)) (users db)
         (remove_first (fun a => an_post_id a =? post_id row) (analytics db)))
  end.

End Crud.

(** ** The analytics summary ([crud.get_analytics_summary]) *)

(** A Python number: [0] in one branch, a float in the other. *)
Inductive number : Type :=
| IntNumber (z : Z)
| FloatNumber (x : spec_float).

(** The dictionary [get_analytics_summary] returns. *)
Record AnalyticsSummary : Type := mkSummary {
  total_posts : nat;
  total_impressions : Z;
  total_clicks : Z;
  total_likes : Z;
  total_comments : Z;
  total_shares : Z;
  summary_engagement_rate : number;
  best_performing_post : option Z
}.

(** [sum(a.column for a in rows)]: adding [None] raises. *)
Fixpoint sum_from (acc : Z) (column : Analytics -> option Z) (rows : list Analytics)
    : outcome Z :=
  match rows with
  | [] => Returned acc
  | a :: rest =>
      match column a with
      | Some v => sum_from (acc + v) column rest
      | None => Raised TypeError
      end
  end.

(** [a.likes + a.comments + a.shares] *)
Definition engagement_of (a : Analytics) : outcome Z :=
  match likes a, comments a, shares a with
  | Some l, Some c, Some s => Returned (l + c + s)
  | _, _, _ => Raised TypeError
  end.

(** The loop over [posts] with its [best_post] and [best_engagement]. *)
Fixpoint best_from (rows : list Analytics) (todo : list Post)
    (best_post : option Post) (best_engagement : Z) : outcome (option Post) :=
  match todo with
  | [] => Returned best_post
  | post :: rest =>
      match first (fun a => an_post_id a =? post_id post) rows with
      | None => best_from rows rest best_post best_engagement
      | Some post_analytics =>
          post_engagement <- engagement_of post_analytics ;;
          if best_engagement <? post_engagement
          then best_from rows rest (Some post) post_engagement
          else best_from rows rest best_post best_engagement
      end
  end.

(** The filter of the posts query of the summary. *)
Definition published_between (uid : Z) (start_date end_date : datetime) (p : Post)
    : bool :=
  (author_id p =? uid) && PostStatus_eqb (status p) PUBLISHED
  && at_or_after (published_time p) start_date
  && at_or_before (published_time p) end_date.

Section Summary.

(** The column [clicks] of an analytics row, which [Analytics] does not
    carry. *)
Variable clicks : Analytics -> option Z.

Definition summary_posts (db : DB) (uid : Z) (start_date end_date : datetime)
    : list Post :=
  filter (published_between uid start_date end_date) (posts db).

(** [Analytics.post_id.in_(post_ids)] *)
Definition summary_rows (db : DB) (selected : list Post) : list Analytics :=
  filter (fun a => existsb (Z.eqb (an_post_id a)) (map post_id selected))
         (analytics db).

(** [crud.get_analytics_summary], with [end_date = datetime.utcnow()] as
    [now]. *)
Definition get_analytics_summary (db : DB) (uid : Z) (days : Z) (now : datetime)
    : outcome AnalyticsSummary :=
  let end_date := now in
  start_date <- datetime_add_days end_date (- days) ;;
  let selected := summary_posts db uid start_date end_date in
  let rows := summary_rows db selected in
  impressions_sum <- sum_from 0 impressions rows ;;
  clicks_sum <- sum_from 0 clicks rows ;;
  likes_sum <- sum_from 0 likes rows ;;
  comments_sum <- sum_from 0 comments rows ;;
  shares_sum <- sum_from 0 shares rows ;;
  let engagement_actions := likes_sum + comments_sum + shares_sum in
  rate <- (if 0 <? impressions_sum
           then ratio <- truediv engagement_actions impressions_sum ;;
                Returned (FloatNumber (fmul ratio (float_of_int 100)))
           else Returned (IntNumber 0)) ;;
  best_post <- best_from rows selected None 0 ;;
  Returned (mkSummary (List.length selected) impressions_sum clicks_sum likes_sum
              comments_sum shares_sum rate (option_map post_id best_post)).

End Summary.

(** ** Parsers for the examples

    [int] and [datetime.fromisoformat] restricted to the plainest inputs they
    accept: a string of ASCII digits, and a date written YYYY-MM-DD (which
    parses to midnight of that day).  The general statements below hold for
    any parsers; these two make the examples run. *)

Definition digit_of (c : ascii) : option Z :=
  let n := Z.of_nat (nat_of_ascii c) in
  if (48 <=? n) && (n <=? 57) then Some (n - 48) else None.

Fixpoint digits_value (acc : Z) (s : string) : option Z :=
  match s with
  | EmptyString => Some acc
  | String c rest =>
      match digit_of c with
      | Some d => digits_value (10 * acc + d) rest
      | None => None
      end
  end.

Definition int_of_digits (s : string) : outcome Z :=
  match s with
  | EmptyString => Raised ValueError
  | _ => match digits_value 0 s with
         | Some v => Returned v
         | None => Raised ValueError
         end
  end.

Definition is_leap (y : Z) : bool :=
  (y mod 4 =? 0) && (negb (y mod 100 =? 0) || (y mod 400 =? 0)).

Definition days_in_month (y m : Z) : Z :=
  if m =? 2 then (if is_leap y then 29 else 28)
  else if (m =? 4) || (m =? 6) || (m =? 9) || (m =? 11) then 30
  else 31.

Definition days_before_year (y : Z) : Z :=
  let p := y - 1 in p * 365 + p / 4 - p / 100 + p / 400.

Fixpoint days_before_month (y : Z) (m : nat) : Z :=
  match m with
  | O => 0
  | S O => 0
  | S m' => days_before_month y m' + days_in_month y (Z.of_nat m')
  end.

(** [date(y, m, d).toordinal()] *)
Definition ymd_to_ordinal (y m d : Z) : outcome date :=
  if (1 <=? y) && (y <=? 9999) && (1 <=? m) && (m <=? 12)
     && (1 <=? d) && (d <=? days_in_month y m)
  then Returned (days_before_year y + days_before_month y (Z.to_nat m) + d)
  else Raised ValueError.

(** [datetime(y, m, d, hh, mm)] *)
Definition datetime_of (y m d hh mm : Z) : outcome datetime :=
  o <- ymd_to_ordinal y m d ;;
  replace_hm (combine_min o) hh mm.

Definition fromisoformat_date (s : string) : outcome datetime :=
  match s with
  | String y1 (String y2 (String y3 (String y4 (String sep1
      (String m1 (String m2 (String sep2 (String d1 (String d2 EmptyString))))))))) =>
      if Ascii.eqb sep1 "-"%char && Ascii.eqb sep2 "-"%char then
        match digits_value 0 (String y1 (String y2 (String y3 (String y4 EmptyString)))),
              digits_value 0 (String m1 (String m2 EmptyString)),
              digits_value 0 (String d1 (String d2 EmptyString)) with
        | Some y, Some m, Some d =>
            o <- ymd_to_ordinal y m d ;; Returned (combine_min o)
        | _, _, _ => Raised ValueError
        end
      else Raised ValueError
  | _ => Raised ValueError
  end.

(** ** Predicates the statements use *)

(** A post the sync query accepts, read off its WHERE clause. *)
Definition qualifies_for_sync (now : datetime) (db : DB) (p : Post) : Prop :=
  status p = PUBLISHED /\
  (exists ext, linkedin_post_id p = Some ext) /\
  exists t, published_time p = Some t /\
    (now - 1 * US_PER_DAY <= t \/
     (now - 7 * US_PER_DAY <= t /\
      exists a s, In a (analytics db) /\ an_post_id a = post_id p /\
                  last_synced a = Some s /\ s <= now - 1 * US_PER_DAY)).

(** The refresh inside the [try] raises: the call itself, or one of the
    assignments that read its answer. *)
Definition refresh_fails (now : datetime) (user : User) (a : Answers) : Prop :=
  match refresh_answer a with
  | Raised _ => True
  | Returned td => snd (apply_token_data now user td) <> None
  end.

Definition is_publish_call (e : event) : bool :=
  match e with
  | PublishCall _ _ => true
  | _ => false
  end.

(** A float without a minus sign. *)
Definition not_negative (x : spec_float) : Prop :=
  match x with
  | S754_zero s | S754_infinity s | S754_finite s _ _ => s = false
  | S754_nan => True
  end.

(** The account owns a post with the identifier. *)
Definition owned (db : DB) (uid id : Z) : Prop :=
  exists p, In p (posts db) /\ post_id p = id /\ author_id p = uid.

(** The configuration without the weekday names [day_map] does not have. *)
Definition known_days (cfg : ScheduleConfig) : ScheduleConfig :=
  mkConfig (cfg_start_date cfg) (cfg_end_date cfg) (cfg_time_slots cfg)
    (option_map (filter (fun day => is_set (day_map day))) (cfg_days cfg))
    (cfg_weeks_ahead cfg) (cfg_days_ahead cfg).

(** The identifiers of [times] are the first identifiers of [todo]. *)
Definition prefix_of (todo : list Post) (times : schedule_times) : Prop :=
  exists rest, map post_id todo = map fst times ++ rest.

Definition group_total (groups : list (Z * list Post)) : nat :=
  fold_right (fun g n => (List.length (snd g) + n)%nat) 0%nat groups.

(** The row the final loop of the allocator leaves for a post that got the
    time [t]. *)
Definition scheduled_at (t : datetime) (p : Post) : Post :=
  mkPost (post_id p) (author_id p) (content p) (image_url p)
    SCHEDULED (Some t) (published_time p) (linkedin_post_id p) (linkedin_share_url p).

(** [owned], decided. *)
Definition owns (db : DB) (uid id : Z) : bool :=
  existsb (fun p => (post_id p =? id) && (author_id p =? uid)) (posts db).

Definition by_id (pid : Z) (p : Post) : bool := post_id p =? pid.

Definition by_author (uid : Z) (p : Post) : bool := author_id p =? uid.

Definition other_account (uid : Z) (p : Post) : bool := negb (author_id p =? uid).

(** The posts a cycle sent to LinkedIn. *)
Fixpoint publish_calls (log : list event) : list Z :=
  match log with
  | [] => []
  | PublishCall pid _ :: rest => pid :: publish_calls rest
  | _ :: rest => publish_calls rest
  end.

(** The accounts a cycle asked a new token for. *)
Fixpoint refresh_calls (log : list event) : list Z :=
  match log with
  | [] => []
  | RefreshCall uid :: rest => uid :: refresh_calls rest
  | _ :: rest => refresh_calls rest
  end.

(** A post the publish worker is done with. *)
Definition settled (now : datetime) (p : Post) : Prop :=
  status p = FAILED \/
  (status p = PUBLISHED /\ published_time p = Some now /\
   is_set (linkedin_post_id p) = true).

(** The columns of a metrics record a sync never assigns. *)
Definition record_key (a : Analytics) : Z * Z * option Z :=
  (an_post_id a, an_user_id a, impressions a).

(** [groups] is [seen] split by author: one group per author, each the
    posts of that author in the order of [seen]. *)
Definition grouped (groups : list (Z * list Post)) (seen : list Post) : Prop :=
  NoDup (map fst groups) /\
  (forall u ps, In (u, ps) groups -> ps <> [] /\ ps = filter (by_author u) seen) /\
  (forall p, In p seen -> In (author_id p) (map fst groups)).

(** [db] has the posts of [db0], and the metrics records of [db0] in their
    places with their keys, possibly followed by new ones. *)
Definition extends (db0 db : DB) : Prop :=
  posts db = posts db0 /\
  exists added, map record_key (analytics db) = map record_key (analytics db0) ++ added.

Definition session_extends (db0 : DB) (s : Session) : Prop :=
  extends db0 (view s) /\ extends db0 (durable s).

(** [e] is the engagement the summary computes for [post] from [rows]. *)
Definition engagement_in (rows : list Analytics) (post : Post) (e : Z) : Prop :=
  exists a, first (fun a => an_post_id a =? post_id post) rows = Some a /\
            engagement_of a = Returned e.

(** ** Example data *)

(** 2026-11-04T10:30:00 *)
Definition example_now : datetime := 63929385000000000.

Definition draft (id author : Z) : Post :=
  mkPost id author "hello" None DRAFT None None None None.

Definition example_posts : DB := mkDB [draft 1 7; draft 2 7; draft 3 8] [] [].

Definition example_evenly : ScheduleConfig :=
  mkConfig (Some "2024-01-01"%string) (Some "2024-01-05"%string)
    (Some ["09:00"%string; "15:00"%string]) None None None.

Definition example_weekdays : ScheduleConfig :=
  mkConfig None None (Some ["09:00"%string])
    (Some ["Funday"%string; "Friday"%string]) (Some 1) None.

Definition example_optimal : ScheduleConfig :=
  mkConfig None None None None None (Some 2).

Definition example_schedule := bulk_schedule_posts fromisoformat_date int_of_digits.
Definition example_route := route_bulk_schedule fromisoformat_date int_of_digits.

Definition example_user : User :=
  mkUser 7 (Some "token"%string) None None (Some "profile"%string).

Definition example_due_post : Post :=
  mkPost 1 7 "hello" None SCHEDULED (Some example_now) None None None.

Definition example_store : DB := mkDB [example_due_post] [example_user] [].

(** The publish call succeeds, the analytics bookkeeping after it raises
    and the commit of the handler goes through. *)
Definition example_answers : Answers :=
  mkAnswers (Raised ExternalError)
    (Returned (mkPublishResponse (Some "urn:li:share:1"%string) None)) true false.

(** An expired token with a refresh token. *)
Definition example_expired_user : User :=
  mkUser 7 (Some "token"%string) (Some "refresh"%string)
    (Some (example_now - 1)) (Some "profile"%string).

Definition example_expired_store : DB :=
  mkDB [example_due_post] [example_expired_user] [].

(** Published three days ago, with a metrics record that was never synced. *)
Definition example_unsynced_post : Post :=
  mkPost 1 7 "hello" None PUBLISHED (Some (example_now - 3 * US_PER_DAY))
    (Some (example_now - 3 * US_PER_DAY)) (Some "urn:li:share:1"%string)
    (Some EmptyString).

Definition example_unsynced_store : DB :=
  mkDB [example_unsynced_post] [example_user]
    [mkAnalytics 1 7 (Some 0) (Some 0) (Some 0) (Some 0) (Some 0) None].

(** The record the publish worker inserts. *)
Definition example_fresh_row : Analytics :=
  inserted (mkAnalytics 1 7 None None None None None (Some example_now)).

Definition example_counts : AnalyticsData := mkAnalyticsData 3 1 1.

(** The record after an update request set its impressions to 100. *)
Definition example_shown_row : Analytics :=
  update_analytics (mkAnalyticsUpdate (Some 100) None None None) example_fresh_row.

(** Impressions set to 100 by an update request, a sync, impressions set
    back to 0: the row the next sync finds. *)
Definition example_stale_row : Analytics :=
  update_analytics (mkAnalyticsUpdate (Some 0) None None None)
    (fst (sync_record example_now example_counts
            (update_analytics (mkAnalyticsUpdate (Some 100) None None None)
               example_fresh_row))).

(** The preview of an optimal_times request for posts 1 and 2 at
    [example_now]: noon and 17:00 of the same day. *)
Definition example_preview : schedule_times :=
  [(1, 63929390400000000); (2, 63929408400000000)].

(** The store after that request. *)
Definition example_scheduled : DB :=
  snd (example_schedule example_posts [1; 2] "optimal_times" example_optimal 7
         example_now).

(** The preview of the specific_days request of [example_weekdays]: the
    Friday after [example_now], 09:00. *)
Definition example_friday : datetime := 63929552400000000.

(** A due post and a draft of the same account. *)
Definition example_mixed_store : DB :=
  mkDB [example_due_post; draft 2 7] [example_user] [].

Definition example_response : PublishResponse :=
  mkPublishResponse (Some "urn:li:share:1"%string) None.

(** The publish call succeeds and nothing raises after it. *)
Definition example_good_answers : Answers :=
  mkAnswers (Raised ExternalError) (Returned example_response) false false.

(** The bookkeeping after the publish raises and leaves the session
    unusable: the commit of the handler raises as well. *)
Definition example_lost_session : Answers :=
  mkAnswers (Raised ExternalError) (Returned example_response) true true.

(** Two due posts of the same account. *)
Definition example_two_due : DB :=
  mkDB [example_due_post;
        mkPost 2 7 "hello" None SCHEDULED (Some example_now) None None None]
    [example_user] [].

(** A token endpoint answer without a new refresh token. *)
Definition example_token : TokenData :=
  mkTokenData (Some "fresh"%string) None (Some 3600).

(** LinkedIn answers every analytics request with [example_counts]. *)
Definition example_sync_answers : SyncAnswers :=
  mkSyncAnswers (fun _ => Raised ExternalError) (fun _ => Returned example_counts).

(** Two posts of account 7 published an hour before [example_now], with
    their metrics, and one of account 8. *)
Definition example_published (id author : Z) : Post :=
  mkPost id author "hello" None PUBLISHED None (Some (example_now - US_PER_HOUR))
    (Some "urn:li:share:1"%string) (Some EmptyString).

Definition example_metrics (id likes_count : Z) : Analytics :=
  mkAnalytics id 7 (Some 100) (Some likes_count) (Some 1) (Some 0) (Some 0)
    (Some example_now).

Definition example_summary_store : DB :=
  mkDB [example_published 1 7; example_published 2 7; example_published 3 8]
    [example_user] [example_metrics 1 2; example_metrics 2 5].

(** The same store with the impressions of post 2 unset. *)
Definition example_null_row : Analytics :=
  mkAnalytics 2 7 None (Some 5) (Some 1) (Some 0) (Some 0) (Some example_now).

Definition example_null_store : DB :=
  mkDB [example_published 1 7; example_published 2 7] [example_user]
    [example_metrics 1 2; example_null_row].

(** No record has a click. *)
Definition no_clicks (a : Analytics) : option Z := Some 0.

(** An evenly_spaced request whose end date is the day before its start
    date. *)
Definition example_backwards : ScheduleConfig :=
  mkConfig (Some "2024-01-02"%string) (Some "2024-01-01"%string)
    (Some ["09:00"%string]) None None None.

(** * Facts *)

(** ** Queries and row updates *)

Lemma PostStatus_eqb_eq : forall a b, PostStatus_eqb a b = true <-> a = b.
Proof. intros [] []; simpl; split; congruence. Qed.

Lemma at_or_after_spec : forall t bound,
  at_or_after t bound = true <-> exists v, t = Some v /\ bound <= v.
Proof.
  intros [v|] bound; simpl.
  - rewrite Z.leb_le. split; [intros H; exists v; auto | intros (w & E & H); congruence].
  - split; [discriminate | intros (w & E & _); discriminate].
Qed.

Lemma at_or_before_spec : forall t bound,
  at_or_before t bound = true <-> exists v, t = Some v /\ v <= bound.
Proof.
  intros [v|] bound; simpl.
  - rewrite Z.leb_le. split; [intros H; exists v; auto | intros (w & E & H); congruence].
  - split; [discriminate | intros (w & E & _); discriminate].
Qed.

Lemma is_set_spec : forall A (o : option A), is_set o = true <-> exists v, o = Some v.
Proof.
  intros A [v|]; simpl; split; eauto; try discriminate.
  intros (w & E); discriminate.
Qed.

Lemma In_firstn : forall A (n : nat) (l : list A) x, In x (firstn n l) -> In x l.
Proof.
  intros A n. induction n as [|n IH]; intros [|y l] x H; simpl in *; try contradiction.
  destruct H as [H|H]; [now left | right; now apply IH].
Qed.

Lemma first_update_first : forall A (sel : A -> bool) (f : A -> A) rows r,
  (forall x, sel x = true -> sel (f x) = true) ->
  first sel rows = Some r ->
  first sel (update_first sel f rows) = Some (f r).
Proof.
  intros A sel f rows r Hf. unfold first.
  induction rows as [|x rows IH]; simpl; [discriminate|].
  destruct (sel x) eqn:Hx; simpl.
  - intros E. injection E as <-. now rewrite (Hf x Hx).
  - rewrite Hx. exact IH.
Qed.

Lemma first_of_member : forall A (sel : A -> bool) rows x,
  In x rows -> sel x = true -> exists r, first sel rows = Some r.
Proof.
  intros A sel rows x. unfold first.
  induction rows as [|y rows IH]; simpl; [contradiction|].
  intros [->|Hin] Hx.
  - rewrite Hx. eauto.
  - destruct (sel y); eauto.
Qed.

Lemma NoDup_map_filter : forall A B (f : A -> B) (keep : A -> bool) l,
  NoDup (map f l) -> NoDup (map f (filter keep l)).
Proof.
  intros A B f keep l. induction l as [|x l IH]; simpl; intros H; [constructor|].
  inversion H as [|y ys Hnot Hnd]; subst.
  destruct (keep x); simpl; [|now apply IH].
  constructor; [|now apply IH].
  intros Hin. apply Hnot. apply in_map_iff in Hin as (z & Ez & Hz).
  apply filter_In in Hz as [Hz _]. apply in_map_iff. eauto.
Qed.

Lemma bind_returned : forall A B (c : outcome A) (k : A -> outcome B) b,
  bind c k = Returned b -> exists a, c = Returned a /\ k a = Returned b.
Proof. intros A B [a|e] k b H; simpl in H; [eauto | discriminate]. Qed.

Ltac invert_bind H :=
  let a := fresh "v" in
  let E := fresh "E" in
  apply bind_returned in H as (a & E & H).

(** ** The publish worker *)

(** C6: a post is among the posts a publish cycle selects exactly when it is
    a row of the store whose status is Scheduled and whose scheduled time t
    satisfies now - 5 min < t <= now + 5 min. *)
Theorem due_window : forall now db p,
  In p (scheduled_posts now db) <->
  In p (posts db) /\ status p = SCHEDULED /\
  exists t, scheduled_time p = Some t /\
            now - 5 * US_PER_MINUTE < t <= now + 5 * US_PER_MINUTE.
Proof.
  intros now db p. unfold scheduled_posts. rewrite filter_In. unfold due.
  rewrite andb_true_iff, PostStatus_eqb_eq.
  destruct (scheduled_time p) as [t|].
  - rewrite andb_true_iff, Z.leb_le, Z.ltb_lt. split.
    + intros (Hin & Hs & Hle & Hlt). repeat split; try assumption.
      exists t. repeat split; assumption.
    + intros (Hin & Hs & t' & Et & Hlt & Hle). injection Et as <-. auto.
  - split.
    + intros (_ & _ & H). discriminate.
    + intros (_ & _ & t & Et & _). discriminate.
Qed.

Lemma mark_failed_status : forall db pid row,
  first (fun p => post_id p =? pid) (posts db) = Some row ->
  exists row', first (fun p => post_id p =? pid) (posts (fst (mark_failed db pid))) = Some row'
               /\ status row' = FAILED.
Proof.
  intros db pid row H. exists (with_status FAILED row). split; [|reflexivity].
  unfold mark_failed, update_post. simpl.
  apply first_update_first; [|assumption].
  intros x Hx. exact Hx.
Qed.

Lemma update_user_posts : forall db u, posts (update_user db u) = posts db.
Proof. reflexivity. Qed.

(** C5: when the owner of a post the worker processes has no access token,
    or an expired token and no refresh token, or an expired token whose
    refresh raises, the iteration leaves the post with status Failed and
    makes no publish call. *)
Theorem token_failure_fails_post : forall now a db post user,
  In post (posts db) ->
  first (fun u => user_id u =? author_id post) (users db) = Some user ->
  truthy (linkedin_access_token user) = false \/
  (token_expired now user = true /\ truthy (linkedin_refresh_token user) = false) \/
  (token_expired now user = true /\ refresh_fails now user a) ->
  (exists row, first (fun p => post_id p =? post_id post)
                 (posts (fst (publish_post now a db post))) = Some row
               /\ status row = FAILED) /\
  existsb is_publish_call (snd (publish_post now a db post)) = false.
Proof.
  intros now a db post user Hin Huser Hcase.
  destruct (first_of_member _ (fun p => post_id p =? post_id post) _ _ Hin
              (Z.eqb_refl _)) as [row Hrow].
  pose proof (mark_failed_status db (post_id post) row Hrow) as Hdb.
  unfold publish_post, publish_iteration. rewrite Huser.
  destruct (truthy (linkedin_access_token user)) eqn:Htok; simpl.
  2: { split; [exact Hdb | reflexivity]. }
  destruct Hcase as [Hc | [[Hexp Hno] | [Hexp Hfail]]]; [discriminate | |].
  - rewrite Hexp, Hno. simpl. split; [exact Hdb | reflexivity].
  - rewrite Hexp.
    destruct (truthy (linkedin_refresh_token user)); simpl.
    2: { split; [exact Hdb | reflexivity]. }
    unfold refresh_fails in Hfail.
    destruct (refresh_answer a) as [td|e].
    + destruct (apply_token_data now user td) as [user' [e|]]; simpl in Hfail.
      * split; [|reflexivity].
        apply (mark_failed_status (update_user db user') (post_id post) row).
        rewrite update_user_posts. exact Hrow.
      * contradiction.
    + split; [exact Hdb | reflexivity].
Qed.

(** An expired token, a refresh token, and a token endpoint that raises. *)
Lemma token_failure_fails_post_witness :
  (exists row, first (fun p => post_id p =? 1)
                 (posts (fst (publish_post example_now example_answers
                                example_expired_store example_due_post))) = Some row
               /\ status row = FAILED) /\
  existsb is_publish_call
    (snd (publish_post example_now example_answers example_expired_store
            example_due_post)) = false.
Proof.
  apply (token_failure_fails_post example_now example_answers example_expired_store
           example_due_post example_expired_user).
  - left. reflexivity.
  - reflexivity.
  - right. right. split; [vm_compute; reflexivity | exact I].
Defined.

(** The status events of an iteration are about its own post. *)
Lemma publish_and_record_status : forall now a db post user pid s,
  In (StatusSet pid s) (snd (fst (publish_and_record now a db post user))) ->
  pid = post_id post.
Proof.
  intros now a db post user pid s. unfold publish_and_record.
  destruct (publish_answer a) as [resp|e]; simpl.
  - destruct (bookkeeping_raises a); simpl.
    + destruct (handler_commit_raises a); simpl.
      * intros [H|[H|[H|[H|[]]]]]; congruence.
      * intros [H|[H|[H|[H|[H|[]]]]]]; congruence.
    + destruct (first _ _); simpl.
      * intros [H|[H|[H|[]]]]; congruence.
      * intros [H|[H|[H|[H|[]]]]]; congruence.
  - intros [H|[H|[H|[]]]]; congruence.
Qed.

Lemma publish_post_status : forall now a db post pid s,
  In (StatusSet pid s) (snd (publish_post now a db post)) -> pid = post_id post.
Proof.
  intros now a db post pid s. unfold publish_post, publish_iteration.
  destruct (first _ _) as [user|]; simpl; [|contradiction].
  destruct (negb (truthy (linkedin_access_token user))); simpl.
  { intros [H|[H|[]]]; congruence. }
  destruct (token_expired now user).
  - destruct (negb (truthy (linkedin_refresh_token user))); simpl.
    { intros [H|[H|[]]]; congruence. }
    destruct (refresh_answer a) as [td|e]; simpl.
    + destruct (apply_token_data now user td) as [user' [e|]]; simpl.
      * intros [H|[H|[H|[]]]]; congruence.
      * destruct (publish_and_record now a (update_user db user') post user')
          as [[db' log] escaped] eqn:E. simpl.
        intros [H|[H|H]]; try congruence.
        apply (publish_and_record_status now a (update_user db user') post user' pid s).
        rewrite E. exact H.
    + intros [H|[H|[H|[]]]]; congruence.
  - apply publish_and_record_status.
Qed.

(** What [publish_all] does after its first iteration. *)
Lemma publish_all_cons : forall now answers post rest db,
  publish_all now answers (post :: rest) db
  = if snd (publish_iteration now (answers (post_id post)) db post)
    then publish_post now (answers (post_id post)) db post
    else (fst (publish_all now answers rest
                 (fst (publish_post now (answers (post_id post)) db post))),
          snd (publish_post now (answers (post_id post)) db post)
          ++ snd (publish_all now answers rest
                    (fst (publish_post now (answers (post_id post)) db post)))).
Proof.
  intros now answers post rest db. unfold publish_post. simpl.
  destruct (publish_iteration now (answers (post_id post)) db post)
    as [[db' log] escaped]. simpl.
  destruct escaped; [reflexivity|].
  destruct (publish_all now answers rest db'). reflexivity.
Qed.

Lemma publish_all_status : forall now answers todo db pid s,
  In (StatusSet pid s) (snd (publish_all now answers todo db)) ->
  exists post, In post todo /\ post_id post = pid.
Proof.
  intros now answers todo. induction todo as [|post rest IH]; intros db pid s H.
  - contradiction.
  - rewrite publish_all_cons in H.
    assert (Hown : In (StatusSet pid s)
                     (snd (publish_post now (answers (post_id post)) db post)) ->
                   exists q, In q (post :: rest) /\ post_id q = pid).
    { intros Hin. exists post. split; [now left|]. symmetry.
      now apply (publish_post_status now (answers (post_id post)) db post pid s). }
    destruct (snd (publish_iteration _ _ _ _)); [now apply Hown|].
    simpl in H. apply in_app_or in H as [H|H]; [now apply Hown|].
    apply IH in H as (q & Hq & E). exists q. split; [now right | assumption].
Qed.

(** The first half of what the specification says of the worker: a cycle
    sets Published only on a post that was Scheduled in the store the cycle
    started from. *)
Lemma published_only_when_scheduled : forall now answers db pid,
  In (StatusSet pid PUBLISHED) (snd (process_scheduled_posts now answers db)) ->
  exists post, In post (posts db) /\ post_id post = pid /\ status post = SCHEDULED.
Proof.
  intros now answers db pid H. unfold process_scheduled_posts in H.
  apply publish_all_status in H as (post & Hin & Hp).
  unfold scheduled_posts in Hin. apply filter_In in Hin as [Hin Hdue].
  exists post. repeat split; try assumption.
  unfold due in Hdue. apply andb_true_iff in Hdue as [Hs _].
  destruct (status post); simpl in Hs; congruence.
Qed.

(** C1: the cycle on a store with one due post whose publish call succeeds
    and whose analytics bookkeeping then raises: the post is set to Published
    and committed, then set to Failed and committed, and ends Failed with the
    LinkedIn identifier of the post that went out. *)
Theorem published_then_failed :
  snd (process_scheduled_posts example_now (fun _ => example_answers) example_store)
  = [PublishCall 1 false; StatusSet 1 PUBLISHED; Commit; StatusSet 1 FAILED; Commit]
  /\ map status (posts (fst (process_scheduled_posts example_now
                               (fun _ => example_answers) example_store)))
     = [FAILED]
  /\ map linkedin_post_id (posts (fst (process_scheduled_posts example_now
                               (fun _ => example_answers) example_store)))
     = [Some "urn:li:share:1"%string].
Proof. repeat split; vm_compute; reflexivity. Qed.

(** ** The analytics sync *)

Lemma has_stale_analytics_spec : forall now db p,
  has_stale_analytics now db p = true <->
  exists a s, In a (analytics db) /\ an_post_id a = post_id p /\
              last_synced a = Some s /\ s <= now - 1 * US_PER_DAY.
Proof.
  intros now db p. unfold has_stale_analytics. rewrite existsb_exists. split.
  - intros (a & Hin & H). apply andb_true_iff in H as [Hid Hs].
    apply Z.eqb_eq in Hid. apply at_or_before_spec in Hs as (s & Es & Hs).
    exists a, s. unfold one_day_ago in Hs. auto.
  - intros (a & s & Hin & Hid & Es & Hs). exists a. split; [assumption|].
    apply andb_true_iff. split; [now apply Z.eqb_eq|].
    apply at_or_before_spec. exists s. unfold one_day_ago. auto.
Qed.

Lemma needs_sync_spec : forall now db p,
  needs_sync now db p = true <-> qualifies_for_sync now db p.
Proof.
  intros now db p. unfold needs_sync, qualifies_for_sync.
  rewrite !andb_true_iff, orb_true_iff, andb_true_iff.
  rewrite PostStatus_eqb_eq, is_set_spec, !at_or_after_spec, has_stale_analytics_spec.
  unfold one_day_ago, one_week_ago. split.
  - intros (Hs & Hext & [(t & Et & Ht) | (Ha & t & Et & Ht)]);
      (split; [assumption | split; [assumption | exists t; split; [assumption|]]]).
    + now left.
    + right. split; assumption.
  - intros (Hs & Hext & t & Et & [Ht | (Ht & Ha)]);
      (split; [assumption | split; [assumption|]]).
    + left. exists t. auto.
    + right. split; [assumption | exists t; auto].
Qed.

(** C7, as the query has it: a post a sync cycle selects is a Published row
    with an external identifier that was published within the last 24 hours,
    or within the last 7 days with a metrics record whose lastSynced is set
    and at least 24 hours old; and every such row is selected when at most 20
    rows qualify. *)
Theorem sync_selection : forall now db p,
  (In p (posts_to_sync now db) -> In p (posts db) /\ qualifies_for_sync now db p) /\
  ((List.length (filter (needs_sync now db) (posts db)) <= 20)%nat ->
   In p (posts db) -> qualifies_for_sync now db p -> In p (posts_to_sync now db)).
Proof.
  intros now db p. unfold posts_to_sync. split.
  - intros H. apply In_firstn in H. apply filter_In in H as [Hin H].
    split; [assumption | now apply needs_sync_spec].
  - intros Hlen Hin Hq. rewrite firstn_all2 by assumption.
    apply filter_In. split; [assumption | now apply needs_sync_spec].
Qed.

(** A post published three days ago whose only metrics record has lastSynced
    unset is a Published row with an external identifier inside the 7 day
    band, and the cycle does not select it. *)
Lemma unsynced_post_not_selected :
  In example_unsynced_post (posts example_unsynced_store) /\
  status example_unsynced_post = PUBLISHED /\
  is_set (linkedin_post_id example_unsynced_post) = true /\
  at_or_after (published_time example_unsynced_post) (one_week_ago example_now) = true /\
  (forall a, In a (analytics example_unsynced_store) ->
             an_post_id a = post_id example_unsynced_post /\ last_synced a = None) /\
  ~ In example_unsynced_post (posts_to_sync example_now example_unsynced_store).
Proof.
  split; [now left|]. split; [reflexivity|]. split; [reflexivity|].
  split; [vm_compute; reflexivity|]. split.
  - intros a [<-|[]]. split; reflexivity.
  - vm_compute. intros [].
Qed.

Lemma group_add_total : forall uid post groups,
  group_total (group_add uid post groups) = S (group_total groups).
Proof.
  intros uid post groups. induction groups as [|[u ps] rest IH]; simpl.
  - reflexivity.
  - destruct (u =? uid); simpl.
    + rewrite length_app. simpl. lia.
    + rewrite IH. lia.
Qed.

Lemma posts_by_user_total : forall to_sync,
  group_total (posts_by_user to_sync) = List.length to_sync.
Proof.
  intros to_sync. unfold posts_by_user.
  enough (H : forall groups,
             group_total (fold_left (fun g post => group_add (author_id post) post g)
                            to_sync groups)
             = (group_total groups + List.length to_sync)%nat) by apply (H []).
  induction to_sync as [|p rest IH]; intros groups; simpl.
  - lia.
  - rewrite IH, group_add_total. lia.
Qed.

Lemma analytics_calls_app : forall l1 l2,
  analytics_calls (l1 ++ l2) = analytics_calls l1 ++ analytics_calls l2.
Proof.
  induction l1 as [|e l1 IH]; intros l2; simpl; [reflexivity|].
  destruct e; simpl; rewrite IH; reflexivity.
Qed.

Lemma sync_post_calls : forall now w uid acc post,
  analytics_calls (snd (sync_post now w uid acc post))
  = analytics_calls (snd acc) ++ [post_id post].
Proof.
  intros now w uid [s log] post. unfold sync_post.
  destruct (analytics_for w (post_id post)) as [data|e]; simpl.
  - destruct (first _ _) as [row|].
    + destruct (sync_record now data row) as [row' [e|]]; simpl;
        rewrite ?analytics_calls_app; simpl; rewrite ?app_nil_r;
        rewrite ?analytics_calls_app; reflexivity.
    + simpl. rewrite analytics_calls_app. reflexivity.
  - rewrite analytics_calls_app. reflexivity.
Qed.

Lemma sync_posts_calls : forall now w uid group_posts acc,
  analytics_calls (snd (fold_left (sync_post now w uid) group_posts acc))
  = analytics_calls (snd acc) ++ map post_id group_posts.
Proof.
  intros now w uid group_posts.
  induction group_posts as [|p rest IH]; intros acc; simpl.
  - now rewrite app_nil_r.
  - rewrite IH, sync_post_calls, <- app_assoc. reflexivity.
Qed.

Lemma sync_user_calls : forall now w acc group,
  (List.length (analytics_calls (snd (sync_user now w acc group)))
   <= List.length (analytics_calls (snd acc)) + List.length (snd group))%nat.
Proof.
  intros now w [s log] [uid group_posts]. unfold sync_user. simpl.
  destruct (first _ _) as [user|]; simpl; [|lia].
  destruct (negb (truthy (linkedin_access_token user))); simpl; [lia|].
  destruct (token_expired now user).
  - destruct (negb (truthy (linkedin_refresh_token user))); simpl; [lia|].
    destruct (refresh_for w uid) as [td|e]; simpl.
    + destruct (apply_token_data now user td) as [user' [e|]]; simpl.
      * rewrite analytics_calls_app. simpl. rewrite app_nil_r. lia.
      * rewrite sync_posts_calls. simpl.
        rewrite !analytics_calls_app. simpl.
        rewrite !length_app, length_map. simpl. lia.
    + rewrite analytics_calls_app. simpl. rewrite app_nil_r. lia.
  - rewrite sync_posts_calls. simpl. rewrite length_app, length_map. lia.
Qed.

Lemma sync_users_calls : forall now w groups acc,
  (List.length (analytics_calls (snd (fold_left (sync_user now w) groups acc)))
   <= List.length (analytics_calls (snd acc)) + group_total groups)%nat.
Proof.
  intros now w groups. induction groups as [|g rest IH]; intros acc; simpl.
  - lia.
  - specialize (IH (sync_user now w acc g)).
    pose proof (sync_user_calls now w acc g). lia.
Qed.

(** C8: whatever the store holds and whatever LinkedIn answers, a sync cycle
    asks for the analytics of at most 20 posts, all accounts together. *)
Theorem sync_budget : forall now w db,
  (List.length (analytics_calls (snd (sync_post_analytics now w db))) <= 20)%nat.
Proof.
  intros now w db. unfold sync_post_analytics.
  pose proof (sync_users_calls now w (posts_by_user (posts_to_sync now db))
                (mkSession db db, [])) as H.
  destruct (fold_left _ _ _) as [s log]. simpl in *.
  rewrite posts_by_user_total in H.
  pose proof (firstn_le_length 20 (filter (needs_sync now db) (posts db))) as Hle.
  unfold posts_to_sync in H. lia.
Qed.

(** *** The engagement rate *)

Arguments float_of_int : simpl never.
Arguments fmul : simpl never.

Lemma binary_round_aux_not_negative : forall m e l,
  not_negative (binary_round_aux 53 1024 false m e l).
Proof.
  intros m e l. unfold binary_round_aux.
  destruct (shr_fexp 53 1024 m e l) as [mrs' e'].
  destruct (shr_fexp 53 1024 _ e' loc_Exact) as [mrs'' e''].
  destruct (shr_m mrs''); simpl; auto.
  destruct (e'' <=? 971); simpl; auto.
Qed.

Lemma float_of_int_not_negative : forall z, 0 <= z -> not_negative (float_of_int z).
Proof.
  intros [|p|p] Hz; unfold float_of_int, binary_normalize.
  - reflexivity.
  - unfold binary_round. destruct (shl_align _ _ _) as [mz ez].
    apply binary_round_aux_not_negative.
  - lia.
Qed.

Lemma SFdiv_not_negative : forall x y,
  not_negative x -> not_negative y -> not_negative (SFdiv 53 1024 x y).
Proof.
  intros [sx|sx| |sx mx ex] [sy|sy| |sy my ey] Hx Hy; simpl in *; subst; auto.
  destruct (SFdiv_core_binary 53 1024 (Z.pos mx) ex (Z.pos my) ey) as [[mz ez] lz].
  apply binary_round_aux_not_negative.
Qed.

Lemma fmul_not_negative : forall x y,
  not_negative x -> not_negative y -> not_negative (fmul x y).
Proof.
  intros [sx|sx| |sx mx ex] [sy|sy| |sy my ey] Hx Hy; unfold fmul; simpl in *;
    subst; auto.
  apply binary_round_aux_not_negative.
Qed.

Lemma int_of_float_not_negative : forall x r,
  not_negative x -> int_of_float x = Returned r -> 0 <= r.
Proof.
  intros [s|s| |s m e] r Hx; simpl in *; intros E; try discriminate.
  - injection E as <-. lia.
  - subst s. injection E as <-. apply Z.shiftl_nonneg. lia.
Qed.

Lemma truediv_not_negative : forall a b q,
  0 <= a -> 0 < b -> truediv a b = Returned q -> not_negative q.
Proof.
  intros a b q Ha Hb. unfold truediv.
  destruct (Z.eqb_spec b 0) as [E|_]; [lia|].
  destruct (Z.ltb_spec a 0) as [Hneg|_]; [lia|].
  destruct (Z.ltb_spec b 0) as [Hneg|_]; [lia|].
  destruct (Z.abs a) as [|ma|ma]; destruct (Z.abs b) as [|mb|mb];
    try (intros E; injection E as <-; reflexivity).
  pose proof (SFdiv_not_negative (S754_finite false ma 0) (S754_finite false mb 0)
                eq_refl eq_refl) as Hq.
  destruct (SFdiv 53 1024 _ _); intros E; try discriminate;
    injection E as <-; exact Hq.
Qed.

(** The quotient of the integers is rounded once: 2^53 + 1 is no double,
    and dividing its nearest double by 100 would give ...200 here. *)
Example truediv_rounds_the_quotient :
  (ratio <- truediv (2 ^ 53 + 1) 100 ;;
   int_of_float (fmul ratio (float_of_int 10000)))
  = Returned 900719925474099328.
Proof. vm_compute. reflexivity. Qed.

(** C9, as the update has it: on a record with impressions at most 0 the
    update raises nothing and leaves the engagement rate of the record as it
    was; on a record with impressions above 0 a completed update sets the
    engagement rate of the record to the truncation of d * 10000, where d is
    the double nearest to (likes + comments + shares) / impressions, and
    that is at least 0 when the three counts add up to at least 0. *)
Theorem sync_record_rate : forall now data a shown,
  impressions a = Some shown ->
  let total := ad_likes data + ad_comments data + ad_shares data in
  (shown <= 0 ->
   snd (sync_record now data a) = None /\
   engagement_rate (fst (sync_record now data a)) = engagement_rate a) /\
  (0 < shown ->
   forall a', sync_record now data a = (a', None) ->
   exists ratio rate,
     truediv total shown = Returned ratio /\
     int_of_float (fmul ratio (float_of_int 10000)) = Returned rate /\
     engagement_rate a' = Some rate /\
     (0 <= total -> 0 <= rate)).
Proof.
  intros now data a shown Himp total. unfold sync_record. simpl. rewrite Himp.
  split.
  - intros Hle. destruct (0 <? shown) eqn:Hpos; [apply Z.ltb_lt in Hpos; lia|].
    simpl. split; reflexivity.
  - intros Hpos a'. apply Z.ltb_lt in Hpos as Hpos'. rewrite Hpos'. fold total.
    destruct (truediv total shown) as [ratio|e] eqn:Hratio; simpl; [|discriminate].
    destruct (int_of_float _) as [rate|e] eqn:Hrate; [|discriminate].
    intros E. injection E as <-. exists ratio, rate. simpl.
    repeat split; try assumption.
    intros Htot. eapply int_of_float_not_negative; [|exact Hrate].
    apply fmul_not_negative.
    + now apply (truediv_not_negative total shown).
    + apply float_of_int_not_negative. lia.
Qed.

(** Both halves: the record whose impressions went back to 0, and the
    record of 100 impressions that is synced with 3 likes, 1 comment and 1
    share. *)
Lemma sync_record_rate_witness :
  (snd (sync_record example_now example_counts example_stale_row) = None /\
   engagement_rate (fst (sync_record example_now example_counts example_stale_row))
   = engagement_rate example_stale_row) /\
  exists ratio rate,
    truediv 5 100 = Returned ratio /\
    int_of_float (fmul ratio (float_of_int 10000)) = Returned rate /\
    engagement_rate (fst (sync_record example_now example_counts example_shown_row))
    = Some rate /\
    (0 <= 5 -> 0 <= rate).
Proof.
  split.
  - apply (sync_record_rate example_now example_counts example_stale_row 0).
    + vm_compute. reflexivity.
    + lia.
  - apply (sync_record_rate example_now example_counts example_shown_row 100).
    + reflexivity.
    + lia.
    + vm_compute. reflexivity.
Defined.

(** A record whose impressions went from 100 back to 0 between two syncs:
    the second sync completes, impressions are 0, and the rate is still the
    500 of the first sync. *)
Lemma stale_rate_survives_sync :
  impressions example_stale_row = Some 0 /\
  snd (sync_record example_now example_counts example_stale_row) = None /\
  impressions (fst (sync_record example_now example_counts example_stale_row)) = Some 0 /\
  engagement_rate (fst (sync_record example_now example_counts example_stale_row))
  = Some 500.
Proof. repeat split; vm_compute; reflexivity. Qed.
(** ** The allocator *)

Section AllocatorFacts.

Variable fromisoformat : string -> outcome datetime.
Variable int_of_str : string -> outcome Z.


(** *** The identifiers of the result are a prefix of the selected rows *)

Lemma prefix_nil : forall todo, prefix_of todo [].
Proof. intros todo. exists (map post_id todo). reflexivity. Qed.

Lemma prefix_cons : forall post rest t times,
  prefix_of rest times -> prefix_of (post :: rest) ((post_id post, t) :: times).
Proof. intros post rest t times [r E]. exists r. simpl. now rewrite E. Qed.

Lemma evenly_by_slots_prefix : forall time_slots end_date todo current_date i times,
  evenly_by_slots int_of_str time_slots end_date todo current_date i = Returned times ->
  prefix_of todo times.
Proof.
  intros time_slots end_date todo.
  induction todo as [|post rest IH]; intros current_date i times H; simpl in H.
  - injection H as <-. apply prefix_nil.
  - destruct (end_date <? current_date).
    + injection H as <-. apply prefix_nil.
    + invert_bind H. invert_bind H.
      destruct (_ <=? _)%nat.
      * invert_bind H. invert_bind H. injection H as <-.
        apply prefix_cons. eapply IH; eassumption.
      * invert_bind H. injection H as <-.
        apply prefix_cons. eapply IH; eassumption.
Qed.

Lemma evenly_by_days_prefix : forall time_slots start_date days_per_post todo i times,
  evenly_by_days int_of_str time_slots start_date days_per_post i todo = Returned times ->
  prefix_of todo times.
Proof.
  intros time_slots start_date days_per_post todo.
  induction todo as [|post rest IH]; intros i times H; simpl in H.
  - injection H as <-. apply prefix_nil.
  - do 5 invert_bind H. injection H as <-.
    apply prefix_cons. eapply IH; eassumption.
Qed.

Lemma assign_dates_prefix : forall todo dates, prefix_of todo (assign_dates todo dates).
Proof.
  induction todo as [|post rest IH]; intros [|d ds]; simpl;
    try apply prefix_nil.
  apply prefix_cons, IH.
Qed.

Lemma optimal_day_split : forall now current_date hours todo today remaining,
  optimal_day now current_date hours todo = Returned (today, remaining) ->
  map post_id todo = map fst today ++ map post_id remaining.
Proof.
  intros now current_date hours.
  induction hours as [|hour hours IH]; intros todo today remaining H; simpl in H.
  - injection H as <- <-. reflexivity.
  - destruct todo as [|post rest].
    + injection H as <- <-. reflexivity.
    + invert_bind H. destruct (now <? v).
      * invert_bind H. destruct v0 as [tl left'].
        injection H as <- <-. simpl. f_equal. now apply IH.
      * now apply IH.
Qed.

Lemma optimal_day_later : forall now current_date hours todo today remaining,
  optimal_day now current_date hours todo = Returned (today, remaining) ->
  Forall (fun entry => now < snd entry) today.
Proof.
  intros now current_date hours.
  induction hours as [|hour hours IH]; intros todo today remaining H; simpl in H.
  - injection H as <- _. constructor.
  - destruct todo as [|post rest].
    + injection H as <- _. constructor.
    + invert_bind H. destruct (now <? v) eqn:Hlt.
      * invert_bind H. destruct v0 as [tl left'].
        injection H as <- _. constructor.
        -- simpl. now apply Z.ltb_lt.
        -- eapply IH; eassumption.
      * eapply IH; eassumption.
Qed.

Arguments optimal_day : simpl never.

Lemma optimal_from_prefix : forall days now current_date todo times,
  optimal_from days now current_date todo = Returned times -> prefix_of todo times.
Proof.
  induction days as [|days IH]; intros now current_date todo times H; simpl in H.
  - injection H as <-. apply prefix_nil.
  - invert_bind H. destruct v as [today remaining]. invert_bind H.
    apply optimal_day_split in E.
    destruct remaining as [|p remaining].
    + injection H as <-. exists []. exact E.
    + invert_bind H. injection H as <-.
      apply IH in E1 as [rest E1]. exists rest.
      rewrite E, E1, map_app, app_assoc. reflexivity.
Qed.

Lemma compute_schedule_prefix : forall schedule_type cfg selected now times,
  compute_schedule fromisoformat int_of_str schedule_type cfg selected now = Returned times ->
  prefix_of selected times.
Proof.
  intros schedule_type cfg selected now times H. unfold compute_schedule in H.
  destruct (String.eqb schedule_type "evenly_spaced").
  - unfold evenly_spaced in H. do 3 invert_bind H.
    destruct (float_le_int _ _).
    + eapply evenly_by_slots_prefix; eassumption.
    + invert_bind H. eapply evenly_by_days_prefix; eassumption.
  - destruct (String.eqb schedule_type "specific_days").
    + unfold specific_days in H. do 2 invert_bind H.
      injection H as <-. apply assign_dates_prefix.
    + destruct (String.eqb schedule_type "optimal_times").
      * eapply optimal_from_prefix; eassumption.
      * injection H as <-. apply prefix_nil.
Qed.

Lemma bulk_schedule_returned : forall db post_ids schedule_type cfg uid now times db',
  bulk_schedule_posts fromisoformat int_of_str db post_ids schedule_type cfg uid now
  = (Returned (Some times), db') ->
  compute_schedule fromisoformat int_of_str schedule_type cfg
    (filter (selected_by post_ids uid) (posts db)) now = Returned times.
Proof.
  intros db post_ids schedule_type cfg uid now times db' H.
  unfold bulk_schedule_posts in H.
  destruct (_ || _); [discriminate|].
  destruct (compute_schedule fromisoformat int_of_str _ _ _ _) as [t|e]; [|discriminate].
  injection H as <- _. reflexivity.
Qed.

(** *** The order of the request *)

Lemma existsb_permutation : forall A (f : A -> bool) l l',
  Permutation l l' -> existsb f l = existsb f l'.
Proof.
  intros A f l l' H. induction H as [|x l l' _ IH|x y l|l l' l'' _ IH1 _ IH2]; simpl.
  - reflexivity.
  - now rewrite IH.
  - destruct (f x), (f y); reflexivity.
  - congruence.
Qed.

Lemma selected_by_permutation : forall post_ids post_ids' uid p,
  Permutation post_ids post_ids' ->
  selected_by post_ids uid p = selected_by post_ids' uid p.
Proof.
  intros post_ids post_ids' uid p H. unfold selected_by.
  now rewrite (existsb_permutation _ _ _ _ H).
Qed.

Lemma update_first_ext : forall A (sel sel' : A -> bool) (f : A -> A) rows,
  (forall x, sel x = sel' x) -> update_first sel f rows = update_first sel' f rows.
Proof.
  intros A sel sel' f rows H. induction rows as [|r rows IH]; simpl; [reflexivity|].
  rewrite <- H, IH. reflexivity.
Qed.

Lemma fold_left_ext : forall A B (f g : A -> B -> A) l a,
  (forall x y, f x y = g x y) -> fold_left f l a = fold_left g l a.
Proof.
  intros A B f g l. induction l as [|b l IH]; intros a H; simpl; [reflexivity|].
  rewrite H. now apply IH.
Qed.

Lemma bulk_schedule_permutation : forall db post_ids post_ids' schedule_type cfg uid now,
  Permutation post_ids post_ids' ->
  bulk_schedule_posts fromisoformat int_of_str db post_ids schedule_type cfg uid now
  = bulk_schedule_posts fromisoformat int_of_str db post_ids' schedule_type cfg uid now.
Proof.
  intros db post_ids post_ids' schedule_type cfg uid now H.
  unfold bulk_schedule_posts.
  rewrite (filter_ext _ _ (fun p => selected_by_permutation _ _ uid p H)).
  rewrite (Permutation_length H).
  destruct (_ || _); [reflexivity|].
  destruct (compute_schedule _ _ _ _ _ _); [|reflexivity].
  f_equal. f_equal. apply fold_left_ext. intros rows entry.
  unfold schedule_post. apply update_first_ext. intros p.
  now rewrite (selected_by_permutation _ _ uid p H).
Qed.

(** C4, as the code has it: the i-th pair of the preview names the i-th row
    of the ownership query, that is the i-th selected post in the order of
    the store; the same request with its identifiers in another order gets
    the same preview. *)
Theorem order_follows_store : forall db post_ids schedule_type cfg uid now times db',
  bulk_schedule_posts fromisoformat int_of_str db post_ids schedule_type cfg uid now
  = (Returned (Some times), db') ->
  (forall i id,
     nth_error (map fst times) i = Some id ->
     nth_error (map post_id (filter (selected_by post_ids uid) (posts db))) i = Some id)
  /\
  (forall post_ids',
     Permutation post_ids post_ids' ->
     bulk_schedule_posts fromisoformat int_of_str db post_ids' schedule_type cfg uid now
     = (Returned (Some times), db')).
Proof.
  intros db post_ids schedule_type cfg uid now times db' H. split.
  - intros i id Hi.
    apply bulk_schedule_returned, compute_schedule_prefix in H as [rest E].
    rewrite E, nth_error_app1; [assumption|].
    apply nth_error_Some. congruence.
  - intros post_ids' Hperm.
    now rewrite <- (bulk_schedule_permutation db _ _ schedule_type cfg uid now Hperm).
Qed.
(** *** specific_days and optimal_times only hand out later times *)

Lemma slots_of_day_later : forall now current_date time_slots dates,
  slots_of_day int_of_str now current_date time_slots = Returned dates ->
  Forall (fun t => now < t) dates.
Proof.
  intros now current_date time_slots.
  induction time_slots as [|slot rest IH]; intros dates H; simpl in H.
  - injection H as <-. constructor.
  - do 2 invert_bind H. injection H as <-.
    destruct (now <? v) eqn:Hlt; [|now apply IH].
    constructor; [now apply Z.ltb_lt | now apply IH].
Qed.

Lemma possible_dates_later : forall fuel now weekdays time_slots end_date current_date dates,
  possible_dates_from int_of_str fuel now weekdays time_slots end_date current_date
  = Returned dates ->
  Forall (fun t => now < t) dates.
Proof.
  induction fuel as [|fuel IH];
    intros now weekdays time_slots end_date current_date dates H; simpl in H.
  - injection H as <-. constructor.
  - destruct (current_date <=? end_date).
    + do 3 invert_bind H. injection H as <-.
      apply Forall_app. split.
      * destruct (existsb _ _).
        -- eapply slots_of_day_later; eassumption.
        -- injection E as <-. constructor.
      * eapply IH; eassumption.
    + injection H as <-. constructor.
Qed.

Lemma date_add_days_value : forall d n r, date_add_days d n = Returned r -> r = d + n.
Proof.
  intros d n r. unfold date_add_days.
  destruct (MAX_DELTA_DAYS <? Z.abs n); [discriminate|].
  destruct (_ && _); [|discriminate].
  intros E. now injection E.
Qed.

Lemma possible_dates_from_S : forall fuel now weekdays time_slots end_date current_date,
  possible_dates_from int_of_str (S fuel) now weekdays time_slots end_date current_date
  = if current_date <=? end_date then
      today <- (if existsb (Z.eqb (weekday current_date)) weekdays
                then slots_of_day int_of_str now current_date time_slots
                else Returned []) ;;
      next_date <- date_add_days current_date 1 ;;
      later <- possible_dates_from int_of_str fuel now weekdays time_slots
                 end_date next_date ;;
      Returned (today ++ later)
    else Returned [].
Proof. reflexivity. Qed.

(** The loop over the dates stops because [current_date] passes [end_date],
    not because the fuel runs out: more fuel changes nothing. *)
Lemma possible_dates_fuel : forall fuel now weekdays time_slots end_date current_date,
  (Z.to_nat (end_date - current_date + 1) <= fuel)%nat ->
  possible_dates_from int_of_str (S fuel) now weekdays time_slots end_date current_date
  = possible_dates_from int_of_str fuel now weekdays time_slots end_date current_date.
Proof.
  induction fuel as [|fuel IH]; intros now weekdays time_slots end_date current_date Hf.
  - simpl. destruct (Z.leb_spec current_date end_date); [lia | reflexivity].
  - rewrite (possible_dates_from_S (S fuel)), (possible_dates_from_S fuel).
    destruct (Z.leb_spec current_date end_date) as [Hle|Hgt]; [|reflexivity].
    destruct (if existsb _ _ then _ else _) as [today|e]; cbn [bind]; [|reflexivity].
    destruct (date_add_days current_date 1) as [next_date|e] eqn:E; cbn [bind];
      [|reflexivity].
    apply date_add_days_value in E. subst next_date.
    rewrite IH by lia. reflexivity.
Qed.

Lemma assign_dates_later : forall now todo dates,
  Forall (fun t => now < t) dates -> Forall (fun entry => now < snd entry) (assign_dates todo dates).
Proof.
  intros now. induction todo as [|post rest IH]; intros [|d ds] H; simpl;
    try constructor.
  - simpl. now inversion H.
  - apply IH. now inversion H.
Qed.

Lemma optimal_from_later : forall days now current_date todo times,
  optimal_from days now current_date todo = Returned times ->
  Forall (fun entry => now < snd entry) times.
Proof.
  induction days as [|days IH]; intros now current_date todo times H; simpl in H.
  - injection H as <-. constructor.
  - invert_bind H. destruct v as [today remaining]. invert_bind H.
    apply optimal_day_later in E.
    destruct remaining as [|p remaining].
    + injection H as <-. exact E.
    + invert_bind H. injection H as <-.
      apply Forall_app. split; [exact E | eapply IH; eassumption].
Qed.

(** C2, for the two strategies that enumerate from today: every timestamp
    specific_days or optimal_times returns is strictly after now. *)
Theorem later_than_now : forall db post_ids schedule_type cfg uid now times db',
  schedule_type = "specific_days"%string \/ schedule_type = "optimal_times"%string ->
  bulk_schedule_posts fromisoformat int_of_str db post_ids schedule_type cfg uid now
  = (Returned (Some times), db') ->
  Forall (fun entry => now < snd entry) times.
Proof.
  intros db post_ids schedule_type cfg uid now times db' Htype H.
  apply bulk_schedule_returned in H. unfold compute_schedule in H.
  destruct Htype as [-> | ->]; simpl in H.
  - unfold specific_days in H. do 2 invert_bind H. injection H as <-.
    apply assign_dates_later. eapply possible_dates_later; eassumption.
  - eapply optimal_from_later; eassumption.
Qed.

(** *** Duplicates and foreign identifiers *)

Lemma selected_by_spec : forall post_ids uid p,
  selected_by post_ids uid p = true <-> In (post_id p) post_ids /\ author_id p = uid.
Proof.
  intros post_ids uid p. unfold selected_by.
  rewrite andb_true_iff, Z.eqb_eq, existsb_exists. split.
  - intros [(id & Hin & E) Ha]. apply Z.eqb_eq in E. subst id. auto.
  - intros [Hin Ha]. split; [|assumption].
    exists (post_id p). split; [assumption | apply Z.eqb_refl].
Qed.

Lemma selected_length : forall db post_ids uid,
  NoDup (map post_id (posts db)) ->
  ~ NoDup post_ids \/ (exists id, In id post_ids /\ ~ owned db uid id) ->
  List.length (filter (selected_by post_ids uid) (posts db)) <> List.length post_ids.
Proof.
  intros db post_ids uid Hkey Hbad Hlen.
  set (selected := filter (selected_by post_ids uid) (posts db)) in *.
  assert (Hnd : NoDup (map post_id selected)) by now apply NoDup_map_filter.
  assert (Hincl : incl (map post_id selected) post_ids).
  { intros id Hin. apply in_map_iff in Hin as (p & <- & Hp).
    apply filter_In in Hp as [_ Hp]. now apply selected_by_spec in Hp. }
  assert (Hle : (List.length post_ids <= List.length (map post_id selected))%nat)
    by (rewrite length_map; lia).
  destruct Hbad as [Hdup | (id & Hin & Hnot)].
  - apply Hdup. exact (@NoDup_incl_NoDup _ _ _ Hnd Hle Hincl).
  - apply Hnot. apply (@NoDup_length_incl _ _ _ Hnd Hle Hincl) in Hin.
    apply in_map_iff in Hin as (p & <- & Hp).
    apply filter_In in Hp as [Hp Hsel]. apply selected_by_spec in Hsel as [_ Ha].
    exists p. auto.
Qed.

(** C10: with identifiers unique in the posts table, a request that lists
    an identifier twice, or lists one the account owns no post for, gets
    [None] from the allocator and status 400 from the route, and the store
    stays as it was. *)
Theorem duplicate_or_foreign_rejected : forall db post_ids schedule_type cfg uid now,
  NoDup (map post_id (posts db)) ->
  ~ NoDup post_ids \/ (exists id, In id post_ids /\ ~ owned db uid id) ->
  bulk_schedule_posts fromisoformat int_of_str db post_ids schedule_type cfg uid now
  = (Returned None, db) /\
  route_bulk_schedule fromisoformat int_of_str db post_ids schedule_type cfg uid now
  = (BadRequest400 "Invalid post IDs or schedule configuration", db).
Proof.
  intros db post_ids schedule_type cfg uid now Hkey Hbad.
  pose proof (selected_length db post_ids uid Hkey Hbad) as Hlen.
  assert (E : bulk_schedule_posts fromisoformat int_of_str db post_ids schedule_type
                cfg uid now = (Returned None, db)).
  { unfold bulk_schedule_posts.
    destruct (Nat.eqb_spec (List.length (filter (selected_by post_ids uid) (posts db)))
                (List.length post_ids)) as [Heq|Hne]; [contradiction|].
    now rewrite orb_true_r. }
  split; [exact E|]. unfold route_bulk_schedule. now rewrite E.
Qed.

(** *** Unknown weekday names, and what an exception leaves behind *)

Lemma weekdays_of_known : forall days,
  weekdays_of (filter (fun day => is_set (day_map day)) days) = weekdays_of days.
Proof.
  induction days as [|day rest IH]; simpl; [reflexivity|].
  destruct (day_map day) as [n|] eqn:E; simpl.
  - rewrite E, IH. reflexivity.
  - exact IH.
Qed.

Lemma specific_days_known : forall cfg selected now,
  specific_days int_of_str (known_days cfg) selected now
  = specific_days int_of_str cfg selected now.
Proof.
  intros cfg selected now. unfold specific_days, known_days. simpl.
  destruct (cfg_days cfg) as [days|]; simpl; [|reflexivity].
  now rewrite weekdays_of_known.
Qed.

(** C3, as the code has it: weekday names outside [day_map] are skipped, so
    a specific_days request is served as the same request without them; and
    when the allocator raises, on dates or slots it cannot parse, the caller
    gets status 500 and the store stays as it was. *)
Theorem unknown_weekdays_skipped : forall db post_ids cfg uid now,
  bulk_schedule_posts fromisoformat int_of_str db post_ids "specific_days"
    (known_days cfg) uid now
  = bulk_schedule_posts fromisoformat int_of_str db post_ids "specific_days" cfg uid now
  /\
  (forall schedule_type e db',
     bulk_schedule_posts fromisoformat int_of_str db post_ids schedule_type cfg uid now
     = (Raised e, db') ->
     db' = db /\
     route_bulk_schedule fromisoformat int_of_str db post_ids schedule_type cfg uid now
     = (ServerError500 e, db)).
Proof.
  intros db post_ids cfg uid now. split.
  - unfold bulk_schedule_posts, compute_schedule. simpl.
    now rewrite specific_days_known.
  - intros schedule_type e db' H. unfold route_bulk_schedule. rewrite H.
    unfold bulk_schedule_posts in H.
    destruct (_ || _); [discriminate|].
    destruct (compute_schedule _ _ _ _ _ _) as [t|e']; [discriminate|].
    injection H as _ <-. auto.
Qed.

End AllocatorFacts.

(** *** The allocator on the example store *)

Example example_now_is : datetime_of 2026 11 4 10 30 = Returned example_now.
Proof. reflexivity. Qed.

Example example_past_slot : datetime_of 2024 1 1 9 0 = Returned 63839696400000000.
Proof. reflexivity. Qed.

Example example_noon_slot : datetime_of 2026 11 4 12 0 = Returned 63929390400000000.
Proof. reflexivity. Qed.

Example example_friday_slot : datetime_of 2026 11 6 9 0 = Returned 63929552400000000.
Proof. reflexivity. Qed.

(** evenly_spaced over 2024-01-01 .. 2024-01-05, asked on 2026-11-04: the
    preview is returned and holds timestamps that are not after now. *)
Lemma evenly_spaced_into_the_past :
  exists times db',
    example_schedule example_posts [1; 2] "evenly_spaced" example_evenly 7 example_now
    = (Returned (Some times), db') /\
    ~ Forall (fun entry => example_now < snd entry) times.
Proof.
  eexists. eexists. split; [vm_compute; reflexivity|].
  intros H. inversion H as [|entry rest Hlt _]; subst. vm_compute in Hlt. discriminate.
Qed.

Lemma later_than_now_witness :
  Forall (fun entry => example_now < snd entry)
    [(1, 63929390400000000); (2, 63929408400000000)].
Proof.
  apply (later_than_now fromisoformat_date int_of_digits example_posts [2; 1]
           "optimal_times" example_optimal 7 example_now _
           (snd (example_schedule example_posts [2; 1] "optimal_times"
                   example_optimal 7 example_now))).
  - right. reflexivity.
  - vm_compute. reflexivity.
Defined.

(** A request that names post 2 first and post 1 second: the first pair of
    the preview names post 1. *)
Lemma request_order_not_kept :
  exists times db',
    example_schedule example_posts [2; 1] "optimal_times" example_optimal 7 example_now
    = (Returned (Some times), db') /\
    nth_error [2; 1] 0 = Some 2 /\
    nth_error (map fst times) 0 = Some 1.
Proof.
  eexists. eexists. split; [vm_compute; reflexivity|].
  split; reflexivity.
Qed.

Lemma order_follows_store_witness :
  nth_error (map post_id (filter (selected_by [2; 1] 7) (posts example_posts))) 0
  = Some 1 /\
  example_schedule example_posts [1; 2] "optimal_times" example_optimal 7 example_now
  = example_schedule example_posts [2; 1] "optimal_times" example_optimal 7 example_now.
Proof.
  destruct (order_follows_store fromisoformat_date int_of_digits example_posts [2; 1]
           "optimal_times" example_optimal 7 example_now
           [(1, 63929390400000000); (2, 63929408400000000)]
           (snd (example_schedule example_posts [2; 1] "optimal_times"
                   example_optimal 7 example_now))) as [Hnth Hperm].
  - vm_compute. reflexivity.
  - split.
    + apply Hnth. reflexivity.
    + unfold example_schedule. rewrite (Hperm [1; 2]).
      * vm_compute. reflexivity.
      * apply perm_swap.
Defined.

(** A specific_days request whose days are "Funday" and "Friday": no error,
    the preview holds the next Friday and the post is now Scheduled. *)
Lemma unknown_weekday_is_served :
  day_map "Funday" = None /\
  fst (example_route example_posts [1] "specific_days" example_weekdays 7 example_now)
  = Ok200 [(1, 63929552400000000)] /\
  map status (posts example_posts) = [DRAFT; DRAFT; DRAFT] /\
  map status
    (posts (snd (example_route example_posts [1] "specific_days" example_weekdays 7
                   example_now)))
  = [SCHEDULED; DRAFT; DRAFT].
Proof. repeat split; vm_compute; reflexivity. Qed.

(** The same identifier twice. *)
Lemma duplicate_or_foreign_rejected_witness :
  example_schedule example_posts [1; 1] "optimal_times" example_optimal 7 example_now
  = (Returned None, example_posts) /\
  example_route example_posts [1; 1] "optimal_times" example_optimal 7 example_now
  = (BadRequest400 "Invalid post IDs or schedule configuration", example_posts).
Proof.
  apply (duplicate_or_foreign_rejected fromisoformat_date int_of_digits example_posts
           [1; 1] "optimal_times" example_optimal 7 example_now).
  - simpl. repeat constructor; simpl; intuition lia.
  - left. intros H. inversion H as [|x l Hnot _]; subst. apply Hnot. now left.
Defined.

(** A time slot [int] cannot read: the allocator raises, the route answers
    500 and no post is touched. *)
Example unparsable_slot_raises :
  example_route example_posts [1] "specific_days"
    (mkConfig None None (Some ["9h"%string]) (Some ["Friday"%string]) (Some 1) None)
    7 example_now
  = (ServerError500 ValueError, example_posts).
Proof. vm_compute. reflexivity. Qed.

(** A strategy tag the function does not know: every branch is skipped and
    the empty preview is returned. *)
Example unknown_strategy_returns_empty :
  example_route example_posts [1] "weekly" example_optimal 7 example_now
  = (Ok200 [], example_posts).
Proof. vm_compute. reflexivity. Qed.

(** * Further facts: what the code shows beyond the specification *)

(** ** Dates *)

Lemma date_of_combine_min : forall d, date_of (combine_min d) = d.
Proof.
  intros d. unfold date_of, combine_min. rewrite Z.div_mul; [lia|].
  unfold US_PER_DAY, US_PER_HOUR, US_PER_MINUTE, US_PER_SECOND. lia.
Qed.

Lemma replace_hm_value : forall t hour minute r,
  replace_hm t hour minute = Returned r ->
  0 <= hour <= 23 /\ 0 <= minute <= 59 /\
  r = (t / US_PER_DAY) * US_PER_DAY + hour * US_PER_HOUR + minute * US_PER_MINUTE
      + t mod US_PER_MINUTE.
Proof.
  intros t hour minute r. unfold replace_hm.
  destruct (Z.leb_spec 0 hour); simpl; [|discriminate].
  destruct (Z.leb_spec hour 23); simpl; [|discriminate].
  destruct (Z.leb_spec 0 minute); simpl; [|discriminate].
  destruct (Z.leb_spec minute 59); simpl; [|discriminate].
  intros E. injection E as <-. lia.
Qed.

Lemma date_of_replace_hm : forall t hour minute r,
  replace_hm t hour minute = Returned r -> date_of r = date_of t.
Proof.
  intros t hour minute r H. apply replace_hm_value in H as (Hh & Hm & ->).
  unfold date_of. f_equal.
  pose proof (Z.mod_pos_bound t US_PER_MINUTE) as Hmod.
  unfold US_PER_DAY, US_PER_HOUR, US_PER_MINUTE, US_PER_SECOND in *.
  rewrite <- !Z.add_assoc, Z.add_comm, Z.div_add by lia.
  rewrite Z.div_small by lia. reflexivity.
Qed.

Lemma replace_hm_on_the_hour : forall d hour r,
  replace_hm (combine_min d) hour 0 = Returned r ->
  0 <= hour <= 23 /\ r = combine_min d + hour * US_PER_HOUR.
Proof.
  intros d hour r H. apply replace_hm_value in H as (Hh & _ & ->).
  split; [assumption|]. unfold combine_min.
  replace ((d - 1) * US_PER_DAY) with ((d - 1) * 1440 * US_PER_MINUTE) at 2
    by (unfold US_PER_DAY, US_PER_HOUR; lia).
  rewrite Z.mod_mul by (unfold US_PER_MINUTE, US_PER_SECOND; lia).
  rewrite Z.div_mul by (unfold US_PER_DAY, US_PER_HOUR, US_PER_MINUTE, US_PER_SECOND; lia).
  lia.
Qed.

Lemma datetime_add_days_value : forall t n r,
  datetime_add_days t n = Returned r ->
  r = t + n * US_PER_DAY /\ date_of r = date_of t + n.
Proof.
  intros t n r. unfold datetime_add_days.
  destruct (MAX_DELTA_DAYS <? Z.abs n); [discriminate|].
  destruct (_ && _); [|discriminate].
  intros E. injection E as <-. split; [reflexivity|].
  unfold date_of. rewrite Z.div_add; [lia|].
  unfold US_PER_DAY, US_PER_HOUR, US_PER_MINUTE, US_PER_SECOND. lia.
Qed.

Lemma date_of_monotone : forall a b, a <= b -> date_of a <= date_of b.
Proof.
  intros a b H. unfold date_of.
  assert (a / US_PER_DAY <= b / US_PER_DAY); [|lia].
  apply Z.div_le_mono; [|assumption].
  unfold US_PER_DAY, US_PER_HOUR, US_PER_MINUTE, US_PER_SECOND. lia.
Qed.

(** ** The allocator *)

Section AllocatorMore.
Variable fromisoformat : string -> outcome datetime.
Variable int_of_str : string -> outcome Z.

Lemma bulk_schedule_accepted : forall db post_ids schedule_type cfg uid now times db',
  bulk_schedule_posts fromisoformat int_of_str db post_ids schedule_type cfg uid now
  = (Returned (Some times), db') ->
  List.length (filter (selected_by post_ids uid) (posts db)) = List.length post_ids /\
  db' = set_posts db (fold_left (schedule_post post_ids uid) times (posts db)).
Proof.
  intros db post_ids schedule_type cfg uid now times db' H.
  unfold bulk_schedule_posts in H.
  destruct (Nat.eqb_spec (List.length (filter (selected_by post_ids uid) (posts db)))
              (List.length post_ids)) as [Heq|Hne].
  - destruct (_ || _); [discriminate|].
    destruct (compute_schedule _ _ _ _ _ _) as [t|e]; [|discriminate].
    injection H as <- <-. auto.
  - rewrite orb_true_r in H. discriminate.
Qed.

(** X1: when post identifiers are unique in the store, the preview of an
    accepted request names no post twice and has at most as many entries as
    the request has identifiers. *)
Theorem preview_names_each_post_once :
  forall db post_ids schedule_type cfg uid now times db',
  NoDup (map post_id (posts db)) ->
  bulk_schedule_posts fromisoformat int_of_str db post_ids schedule_type cfg uid now
  = (Returned (Some times), db') ->
  NoDup (map fst times) /\ (List.length times <= List.length post_ids)%nat.
Proof.
  intros db post_ids schedule_type cfg uid now times db' Hkey H.
  pose proof (bulk_schedule_accepted _ _ _ _ _ _ _ _ H) as [Hlen _].
  apply bulk_schedule_returned, compute_schedule_prefix in H as [rest E].
  pose proof (NoDup_map_filter _ _ post_id (selected_by post_ids uid) _ Hkey) as Hnd.
  rewrite E in Hnd. split.
  - now apply NoDup_app_remove_r in Hnd.
  - rewrite <- Hlen, <- (length_map post_id), E, length_app, length_map. lia.
Qed.

Lemma update_first_keeps : forall A (sel : A -> bool) (f : A -> A) rows i r,
  nth_error rows i = Some r -> sel r = false ->
  nth_error (update_first sel f rows) i = Some r.
Proof.
  intros A sel f rows. induction rows as [|x rows IH]; intros [|i] r H Hs; simpl in *;
    try discriminate.
  - injection H as ->. now rewrite Hs.
  - destruct (sel x); simpl; [assumption | now apply IH].
Qed.

Lemma schedule_fold_keeps : forall post_ids uid times rows i p,
  nth_error rows i = Some p ->
  author_id p <> uid \/ ~ In (post_id p) (map fst times) ->
  nth_error (fold_left (schedule_post post_ids uid) times rows) i = Some p.
Proof.
  intros post_ids uid times. induction times as [|e times IH]; intros rows i p H Hp; simpl.
  - assumption.
  - apply IH.
    + unfold schedule_post. apply update_first_keeps; [assumption|].
      destruct Hp as [Ha | Hn].
      * unfold selected_by. destruct (Z.eqb_spec (author_id p) uid); [contradiction|].
        now rewrite andb_false_r.
      * destruct (Z.eqb_spec (post_id p) (fst e)) as [E|_];
          [|now rewrite andb_false_r].
        exfalso. apply Hn. left. now symmetry.
    + destruct Hp as [Ha | Hn]; [now left | right].
      intros Hin. apply Hn. now right.
Qed.

(** X3: whatever [bulk_schedule_posts] answers, the users and the metrics
    records are unchanged, and a post of another account, or one the preview
    does not name, is the same row at the same place afterwards. *)
Theorem bulk_schedule_touches_only_named :
  forall db post_ids schedule_type cfg uid now result db',
  bulk_schedule_posts fromisoformat int_of_str db post_ids schedule_type cfg uid now
  = (result, db') ->
  users db' = users db /\ analytics db' = analytics db /\
  forall i p,
    nth_error (posts db) i = Some p ->
    author_id p <> uid \/
    (forall times, result = Returned (Some times) -> ~ In (post_id p) (map fst times)) ->
    nth_error (posts db') i = Some p.
Proof.
  intros db post_ids schedule_type cfg uid now result db' H.
  unfold bulk_schedule_posts in H.
  destruct (_ || _).
  { injection H as <- <-. auto. }
  destruct (compute_schedule _ _ _ _ _ _) as [times|e].
  - injection H as <- <-. simpl. repeat split.
    intros i p Hi Hp. apply schedule_fold_keeps; [assumption|].
    destruct Hp as [Ha|Hn]; [now left | right; now apply Hn].
  - injection H as <- <-. auto.
Qed.

Lemma update_first_ids : forall (sel : Post -> bool) (f : Post -> Post) rows,
  (forall x, post_id (f x) = post_id x) ->
  map post_id (update_first sel f rows) = map post_id rows.
Proof.
  intros sel f rows Hf. induction rows as [|x rows IH]; simpl; [reflexivity|].
  destruct (sel x); simpl; [now rewrite Hf | now rewrite IH].
Qed.

Lemma update_first_keeps_member : forall A (sel : A -> bool) (f : A -> A) rows r,
  In r rows -> sel r = false -> In r (update_first sel f rows).
Proof.
  intros A sel f rows r Hin Hs. apply In_nth_error in Hin as [i Hi].
  eapply nth_error_In. apply update_first_keeps; eassumption.
Qed.

Lemma update_first_hits : forall (sel : Post -> bool) (f : Post -> Post) rows p k,
  NoDup (map post_id rows) -> In p rows ->
  (forall q, sel q = true -> post_id q = k) -> sel p = true ->
  In (f p) (update_first sel f rows).
Proof.
  intros sel f rows p k. induction rows as [|x rows IH]; simpl; intros Hnd Hin Hk Hp.
  - contradiction.
  - inversion Hnd as [|y ys Hnot Hnd']; subst.
    destruct (sel x) eqn:Hx.
    + destruct Hin as [->|Hin]; [now left|].
      exfalso. apply Hnot. apply in_map_iff. exists p. split; [|assumption].
      rewrite (Hk p Hp), (Hk x Hx). reflexivity.
    + destruct Hin as [->|Hin]; [congruence|].
      right. now apply IH.
Qed.

Lemma schedule_fold_hits : forall post_ids uid times rows p t,
  NoDup (map post_id rows) -> NoDup (map fst times) ->
  In (post_id p, t) times -> In p rows -> selected_by post_ids uid p = true ->
  In (scheduled_at t p) (fold_left (schedule_post post_ids uid) times rows).
Proof.
  intros post_ids uid times. induction times as [|e times IH];
    intros rows p t Hrows Htimes Hin Hp Hsel; simpl in *; [contradiction|].
  inversion Htimes as [|x xs Hnot Htimes']; subst.
  assert (Hids : map post_id (schedule_post post_ids uid rows e) = map post_id rows)
    by (apply update_first_ids; reflexivity).
  destruct Hin as [-> | Hin].
  - assert (Hhit : In (scheduled_at t p)
                     (schedule_post post_ids uid rows (post_id p, t))).
    { apply (update_first_hits _ _ rows p (post_id p)); try assumption.
      - intros q Hq. apply andb_true_iff in Hq as [_ Hq]. now apply Z.eqb_eq in Hq.
      - simpl. rewrite Hsel, Z.eqb_refl. reflexivity. }
    apply In_nth_error in Hhit as [i Hi]. eapply nth_error_In.
    apply schedule_fold_keeps; [exact Hi|]. right. exact Hnot.
  - apply IH; try assumption.
    + now rewrite Hids.
    + apply update_first_keeps_member; [assumption|].
      destruct (Z.eqb_spec (post_id p) (fst e)) as [E|_]; [|now rewrite andb_false_r].
      exfalso. apply Hnot. rewrite <- E. apply in_map_iff. exists (post_id p, t). auto.
Qed.

Lemma bulk_schedule_row :
  forall db post_ids schedule_type cfg uid now times db',
  NoDup (map post_id (posts db)) ->
  bulk_schedule_posts fromisoformat int_of_str db post_ids schedule_type cfg uid now
  = (Returned (Some times), db') ->
  forall id t, In (id, t) times ->
  exists p, In p (posts db) /\ post_id p = id /\ author_id p = uid /\
            In (scheduled_at t p) (posts db').
Proof.
  intros db post_ids schedule_type cfg uid now times db' Hkey H id t Hin.
  pose proof (bulk_schedule_accepted _ _ _ _ _ _ _ _ H) as [_ ->].
  pose proof (NoDup_map_filter _ _ post_id (selected_by post_ids uid) _ Hkey) as Hnd.
  apply bulk_schedule_returned, compute_schedule_prefix in H as [rest E].
  assert (Hid : In id (map post_id (filter (selected_by post_ids uid) (posts db)))).
  { rewrite E. apply in_or_app. left. apply in_map_iff. exists (id, t). auto. }
  apply in_map_iff in Hid as (p & Hp & Hsel). apply filter_In in Hsel as [Hrow Hsel].
  exists p. split; [assumption|]. split; [assumption|].
  split; [now apply selected_by_spec in Hsel|].
  simpl. subst id. apply schedule_fold_hits; try assumption.
  rewrite E in Hnd. now apply NoDup_app_remove_r in Hnd.
Qed.


(** X10: when post identifiers are unique in the store, a post the
    allocator gave the time t is selected by the publish cycle that runs on
    the resulting store at any now' with now' - 5 min < t <= now' + 5 min. *)
Theorem allocated_post_becomes_due :
  forall db post_ids schedule_type cfg uid now times db' id t now',
  NoDup (map post_id (posts db)) ->
  bulk_schedule_posts fromisoformat int_of_str db post_ids schedule_type cfg uid now
  = (Returned (Some times), db') ->
  In (id, t) times ->
  now' - 5 * US_PER_MINUTE < t <= now' + 5 * US_PER_MINUTE ->
  exists p, In p (scheduled_posts now' db') /\ post_id p = id /\ author_id p = uid.
Proof.
  intros db post_ids schedule_type cfg uid now times db' id t now' Hkey H Hin Ht.
  destruct (bulk_schedule_row _ _ _ _ _ _ _ _ Hkey H id t Hin) as (p & _ & Hid & Ha & Hp).
  exists (scheduled_at t p). split; [|split; assumption].
  unfold scheduled_posts. apply filter_In. split; [assumption|].
  unfold due. simpl. apply andb_true_iff.
  unfold US_PER_MINUTE, US_PER_SECOND in Ht.
  split; [apply Z.leb_le | apply Z.ltb_lt]; lia.
Qed.

Lemma slot_time_date : forall base slot t,
  slot_time int_of_str base slot = Returned t -> date_of t = date_of base.
Proof.
  intros base slot t H. unfold slot_time in H. do 4 invert_bind H.
  eapply date_of_replace_hm; eassumption.
Qed.

(** X6: every time the slot-filling loop of evenly_spaced returns falls on
    a date from the date the loop starts on to the end date. *)
Theorem evenly_by_slots_inside_range :
  forall time_slots end_date todo current_date i times,
  evenly_by_slots int_of_str time_slots end_date todo current_date i = Returned times ->
  Forall (fun entry => date_of current_date <= date_of (snd entry) <= date_of end_date)
    times.
Proof.
  intros time_slots end_date todo.
  induction todo as [|post rest IH]; intros current_date i times H; simpl in H.
  - injection H as <-. constructor.
  - destruct (Z.ltb_spec end_date current_date) as [Hgt|Hle].
    + injection H as <-. constructor.
    + invert_bind H. invert_bind H.
      apply slot_time_date in E0. apply date_of_monotone in Hle.
      destruct (_ <=? _)%nat.
      * invert_bind H. invert_bind H. injection H as <-.
        apply datetime_add_days_value in E1 as [_ E1].
        constructor; [simpl; lia|].
        apply IH in E2. eapply Forall_impl; [|exact E2].
        intros e He. simpl in He. lia.
      * invert_bind H. injection H as <-.
        constructor; [simpl; lia|]. eapply IH; eassumption.
Qed.

Lemma optimal_hour_range : forall h, In h optimal_hours -> 0 <= h <= 23.
Proof. intros h [<-|[<-|[<-|[<-|[]]]]]; lia. Qed.

Lemma optimal_day_slots : forall now d hours todo today remaining,
  StronglySorted Z.lt hours ->
  optimal_day now d hours todo = Returned (today, remaining) ->
  StronglySorted Z.lt (map snd today) /\
  Forall (fun t => exists h, In h hours /\ t = combine_min d + h * US_PER_HOUR)
    (map snd today).
Proof.
  intros now d hours.
  induction hours as [|hour hours IH]; intros todo today remaining Hs H; simpl in H.
  - injection H as <- _. split; constructor.
  - inversion Hs as [|x xs Hs' Hlt]; subst.
    destruct todo as [|post rest].
    + injection H as <- _. split; constructor.
    + invert_bind H. apply replace_hm_on_the_hour in E as [_ ->].
      destruct (now <? _).
      * invert_bind H. destruct v as [tl left']. injection H as <- _.
        apply (IH _ _ _ Hs') in E as [Hsorted Hall]. simpl. split.
        -- constructor; [assumption|].
           rewrite Forall_forall in *. intros t Ht.
           destruct (Hall t Ht) as (h & Hh & ->). specialize (Hlt h Hh).
           unfold US_PER_HOUR, US_PER_MINUTE, US_PER_SECOND. lia.
        -- constructor; [exists hour; split; [now left | reflexivity]|].
           eapply Forall_impl; [|exact Hall].
           intros t (h & Hh & ->). exists h. split; [now right | reflexivity].
      * apply (IH _ _ _ Hs') in H as [Hsorted Hall]. split; [assumption|].
        eapply Forall_impl; [|exact Hall].
        intros t (h & Hh & ->). exists h. split; [now right | reflexivity].
Qed.

Lemma optimal_hours_sorted : StronglySorted Z.lt optimal_hours.
Proof. unfold optimal_hours. repeat constructor; lia. Qed.

Lemma StronglySorted_app : forall (l1 l2 : list Z) bound,
  StronglySorted Z.lt l1 -> StronglySorted Z.lt l2 ->
  Forall (fun t => t < bound) l1 -> Forall (fun t => bound <= t) l2 ->
  StronglySorted Z.lt (l1 ++ l2).
Proof.
  intros l1 l2 bound H1 H2 Hlow Hhigh. induction H1 as [|x l1 Hs IH Hx]; simpl.
  - assumption.
  - inversion Hlow as [|y ys Hy Hlow']; subst.
    constructor; [now apply IH|].
    apply Forall_app. split; [assumption|].
    eapply Forall_impl; [|exact Hhigh]. intros t Ht. simpl in Ht. lia.
Qed.

Lemma optimal_from_S : forall days now d todo,
  optimal_from (S days) now d todo
  = ('(today, remaining) <- optimal_day now d optimal_hours todo ;;
     next_date <- date_add_days d 1 ;;
     match remaining with
     | [] => Returned today
     | _ :: _ =>
         later <- optimal_from days now next_date remaining ;;
         Returned (today ++ later)
     end).
Proof. reflexivity. Qed.

Lemma optimal_from_slots : forall days now d todo times,
  optimal_from days now d todo = Returned times ->
  StronglySorted Z.lt (map snd times) /\
  Forall (fun t => exists k h, 0 <= k < Z.of_nat days /\ In h optimal_hours /\
                               t = combine_min (d + k) + h * US_PER_HOUR)
    (map snd times).
Proof.
  induction days as [|days IH]; intros now d todo times H.
  - simpl in H. injection H as <-. split; constructor.
  - rewrite optimal_from_S in H. invert_bind H. destruct v as [today remaining].
    invert_bind H. apply date_add_days_value in E0. subst v.
    apply (optimal_day_slots _ _ _ _ _ _ optimal_hours_sorted) in E as [Hsorted Hall].
    assert (Htoday : Forall (fun t => exists k h, 0 <= k < Z.of_nat (S days) /\
                               In h optimal_hours /\
                               t = combine_min (d + k) + h * US_PER_HOUR)
                       (map snd today)).
    { eapply Forall_impl; [|exact Hall]. intros t (h & Hh & ->).
      exists 0, h. rewrite Z.add_0_r. repeat split; try assumption; lia. }
    destruct remaining as [|p remaining].
    + injection H as <-. split; assumption.
    + invert_bind H. injection H as <-.
      apply IH in E as [Hsorted' Hall']. rewrite map_app. split.
      * apply (StronglySorted_app _ _ (combine_min (d + 1))); try assumption.
        -- eapply Forall_impl; [|exact Hall]. intros t (h & Hh & ->).
           apply optimal_hour_range in Hh. unfold combine_min.
           unfold US_PER_DAY, US_PER_HOUR, US_PER_MINUTE, US_PER_SECOND. lia.
        -- eapply Forall_impl; [|exact Hall']. intros t (k & h & Hk & Hh & ->).
           apply optimal_hour_range in Hh. unfold combine_min.
           unfold US_PER_DAY, US_PER_HOUR, US_PER_MINUTE, US_PER_SECOND. lia.
      * apply Forall_app. split; [assumption|].
        eapply Forall_impl; [|exact Hall']. intros t (k & h & Hk & Hh & ->).
        exists (1 + k), h. rewrite Z.add_assoc. repeat split; try assumption; lia.
Qed.

Lemma optimal_times_returned :
  forall db post_ids cfg uid now times db',
  bulk_schedule_posts fromisoformat int_of_str db post_ids "optimal_times" cfg uid now
  = (Returned (Some times), db') ->
  optimal_from (Z.to_nat (get (cfg_days_ahead cfg) 14)) now (date_of now)
    (filter (selected_by post_ids uid) (posts db)) = Returned times.
Proof.
  intros db post_ids cfg uid now times db' H.
  apply bulk_schedule_returned in H. exact H.
Qed.

(** X7: the times of an optimal_times preview are strictly increasing. *)
Theorem optimal_times_chronological :
  forall db post_ids cfg uid now times db',
  bulk_schedule_posts fromisoformat int_of_str db post_ids "optimal_times" cfg uid now
  = (Returned (Some times), db') ->
  StronglySorted Z.lt (map snd times).
Proof.
  intros db post_ids cfg uid now times db' H.
  apply optimal_times_returned, optimal_from_slots in H. apply H.
Qed.

(** X8: every time of an optimal_times preview is 09:00, 12:00, 17:00 or
    20:00 sharp on one of the [days_ahead] days that start today. *)
Theorem optimal_times_on_the_hours :
  forall db post_ids cfg uid now times db',
  bulk_schedule_posts fromisoformat int_of_str db post_ids "optimal_times" cfg uid now
  = (Returned (Some times), db') ->
  forall id t, In (id, t) times ->
  exists day hour,
    date_of now <= day < date_of now + get (cfg_days_ahead cfg) 14 /\
    In hour [9; 12; 17; 20] /\
    t = combine_min day + hour * US_PER_HOUR.
Proof.
  intros db post_ids cfg uid now times db' H id t Hin.
  apply optimal_times_returned, optimal_from_slots in H as [_ H].
  rewrite Forall_forall in H.
  destruct (H t) as (k & h & Hk & Hh & ->).
  { apply in_map_iff. exists (id, t). auto. }
  exists (date_of now + k), h. repeat split; try assumption; lia.
Qed.

Lemma slots_of_day_date : forall now d time_slots dates,
  slots_of_day int_of_str now d time_slots = Returned dates ->
  Forall (fun t => date_of t = d) dates.
Proof.
  intros now d time_slots.
  induction time_slots as [|slot rest IH]; intros dates H; simpl in H.
  - injection H as <-. constructor.
  - do 2 invert_bind H. injection H as <-.
    apply slot_time_date in E. rewrite date_of_combine_min in E.
    destruct (now <? v); [constructor; [assumption|]|]; now apply IH.
Qed.

Lemma possible_dates_days : forall fuel now weekdays time_slots end_date current_date dates,
  possible_dates_from int_of_str fuel now weekdays time_slots end_date current_date
  = Returned dates ->
  Forall (fun t => current_date <= date_of t <= end_date /\
                   In (weekday (date_of t)) weekdays) dates.
Proof.
  induction fuel as [|fuel IH];
    intros now weekdays time_slots end_date current_date dates H.
  - simpl in H. injection H as <-. constructor.
  - rewrite possible_dates_from_S in H.
    destruct (Z.leb_spec current_date end_date) as [Hle|Hgt].
    + do 3 invert_bind H. injection H as <-.
      apply date_add_days_value in E0. subst v0.
      apply Forall_app. split.
      * destruct (existsb _ _) eqn:Hday.
        -- apply slots_of_day_date in E. eapply Forall_impl; [|exact E].
           intros t ->. split; [lia|].
           apply existsb_exists in Hday as (w & Hw & Ew).
           apply Z.eqb_eq in Ew. now rewrite Ew.
        -- injection E as <-. constructor.
      * apply IH in E1. eapply Forall_impl; [|exact E1].
        intros t [Ht Hw]. split; [lia | assumption].
    + injection H as <-. constructor.
Qed.

Lemma assign_dates_members : forall todo dates entry,
  In entry (assign_dates todo dates) -> In (snd entry) dates.
Proof.
  induction todo as [|post rest IH]; intros [|d ds] entry H; simpl in H;
    try contradiction.
  destruct H as [<-|H]; [now left | right; now apply IH].
Qed.

(** X9: every time of a specific_days preview falls on one of the listed
    weekdays [day_map] knows, on a date from today to 7 * [weeks_ahead] days
    from today. *)
Theorem specific_days_on_listed_weekdays :
  forall db post_ids cfg uid now times db',
  bulk_schedule_posts fromisoformat int_of_str db post_ids "specific_days" cfg uid now
  = (Returned (Some times), db') ->
  forall id t, In (id, t) times ->
  In (weekday (date_of t)) (weekdays_of (get (cfg_days cfg) ["Monday"%string])) /\
  date_of now <= date_of t <= date_of now + 7 * get (cfg_weeks_ahead cfg) 4.
Proof.
  intros db post_ids cfg uid now times db' H id t Hin.
  apply bulk_schedule_returned in H. unfold compute_schedule in H. simpl in H.
  unfold specific_days in H. do 2 invert_bind H. injection H as <-.
  apply date_add_days_value in E. subst v.
  apply possible_dates_days in E0. rewrite Forall_forall in E0.
  apply assign_dates_members in Hin. simpl in Hin.
  destruct (E0 t Hin) as [Hrange Hday]. split; assumption.
Qed.

Lemma owns_spec : forall db uid id, owns db uid id = true <-> owned db uid id.
Proof.
  intros db uid id. unfold owns, owned. rewrite existsb_exists. split.
  - intros (p & Hin & H). apply andb_true_iff in H as [H1 H2].
    apply Z.eqb_eq in H1, H2. eauto.
  - intros (p & Hin & H1 & H2). exists p. split; [assumption|].
    apply andb_true_iff. split; now apply Z.eqb_eq.
Qed.

Lemma selected_length_owned : forall db post_ids uid,
  NoDup (map post_id (posts db)) -> NoDup post_ids ->
  (forall id, In id post_ids -> owned db uid id) ->
  List.length (filter (selected_by post_ids uid) (posts db)) = List.length post_ids.
Proof.
  intros db post_ids uid Hkey Hnd Hown.
  set (selected := filter (selected_by post_ids uid) (posts db)).
  assert (Hsel : NoDup (map post_id selected)) by now apply NoDup_map_filter.
  rewrite <- (length_map post_id). apply Nat.le_antisymm.
  - apply NoDup_incl_length; [assumption|].
    intros id Hin. apply in_map_iff in Hin as (p & <- & Hp).
    apply filter_In in Hp as [_ Hp]. now apply selected_by_spec in Hp.
  - apply NoDup_incl_length; [assumption|].
    intros id Hin. destruct (Hown id Hin) as (p & Hp & Hid & Ha).
    apply in_map_iff. exists p. split; [assumption|].
    apply filter_In. split; [assumption|].
    apply selected_by_spec. subst. auto.
Qed.

Lemma request_accepted : forall db post_ids uid,
  NoDup (map post_id (posts db)) -> post_ids <> [] -> NoDup post_ids ->
  (forall id, In id post_ids -> owned db uid id) ->
  (List.length (filter (selected_by post_ids uid) (posts db)) =? 0)%nat
  || negb (List.length (filter (selected_by post_ids uid) (posts db))
           =? List.length post_ids)%nat = false.
Proof.
  intros db post_ids uid Hkey Hne Hnd Hown.
  rewrite (selected_length_owned db post_ids uid Hkey Hnd Hown), Nat.eqb_refl.
  destruct post_ids; [contradiction | reflexivity].
Qed.

(** X4: when post identifiers are unique in the store,
    [bulk_schedule_posts] returns [None] exactly when the identifier list is
    empty, or names an identifier twice, or names a post the caller does not
    own. *)
Theorem rejected_exactly_when : forall db post_ids schedule_type cfg uid now,
  NoDup (map post_id (posts db)) ->
  (fst (bulk_schedule_posts fromisoformat int_of_str db post_ids schedule_type cfg uid now)
   = Returned None
   <->
   post_ids = [] \/ ~ NoDup post_ids \/ exists id, In id post_ids /\ ~ owned db uid id).
Proof.
  intros db post_ids schedule_type cfg uid now Hkey. split.
  - intros H.
    destruct post_ids as [|id0 rest] eqn:Hids; [now left | right]. rewrite <- Hids in *.
    destruct (ListDec.NoDup_dec Z.eq_dec post_ids) as [Hnd|Hdup]; [right | now left].
    destruct (forallb (owns db uid) post_ids) eqn:Hall.
    + exfalso. unfold bulk_schedule_posts in H.
      rewrite request_accepted in H; try assumption.
      * destruct (compute_schedule _ _ _ _ _ _); simpl in H; discriminate.
      * rewrite Hids. discriminate.
      * intros id Hin. apply owns_spec.
        rewrite forallb_forall in Hall. now apply Hall.
    + assert (Hex : exists id, In id post_ids /\ owns db uid id = false).
      { clear - Hall. induction post_ids as [|x l IH]; simpl in Hall; [discriminate|].
        destruct (owns db uid x) eqn:Hx.
        - destruct (IH Hall) as (id & Hin & Hid). exists id. split; [now right | assumption].
        - exists x. split; [now left | assumption]. }
      destruct Hex as (id & Hin & Hid). exists id. split; [assumption|].
      intros Ho. apply owns_spec in Ho. congruence.
  - intros [-> | Hbad].
    + unfold bulk_schedule_posts.
      assert (E : filter (selected_by [] uid) (posts db) = []).
      { clear Hkey. induction (posts db) as [|p l IH]; simpl; [reflexivity | exact IH]. }
      rewrite E. reflexivity.
    + pose proof (selected_length db post_ids uid Hkey Hbad) as Hlen.
      unfold bulk_schedule_posts.
      destruct (Nat.eqb_spec (List.length (filter (selected_by post_ids uid) (posts db)))
                  (List.length post_ids)) as [Heq|Hne]; [contradiction|].
      now rewrite orb_true_r.
Qed.

(** X5: an accepted evenly_spaced request whose end date lies up to one
    day before its start date makes [days_between] zero: the division raises
    ZeroDivisionError, the route answers 500 and the store is unchanged. *)
Theorem one_day_back_divides_by_zero :
  forall db post_ids cfg uid now first_day last_day start_date end_date,
  NoDup (map post_id (posts db)) -> post_ids <> [] -> NoDup post_ids ->
  (forall id, In id post_ids -> owned db uid id) ->
  cfg_start_date cfg = Some first_day -> cfg_end_date cfg = Some last_day ->
  fromisoformat first_day = Returned start_date ->
  fromisoformat last_day = Returned end_date ->
  start_date - US_PER_DAY <= end_date < start_date ->
  route_bulk_schedule fromisoformat int_of_str db post_ids "evenly_spaced" cfg uid now
  = (ServerError500 ZeroDivisionError, db).
Proof.
  intros db post_ids cfg uid now first_day last_day start_date end_date
    Hkey Hne Hnd Hown Hs He Hfs Hfe Hrange.
  unfold route_bulk_schedule, bulk_schedule_posts.
  rewrite request_accepted by assumption.
  unfold compute_schedule. simpl. unfold evenly_spaced.
  rewrite Hs, He. simpl. rewrite Hfs, Hfe. simpl.
  assert (E : delta_days end_date start_date + 1 = 0).
  { unfold delta_days.
    assert ((end_date - start_date) / US_PER_DAY = -1); [|lia].
    symmetry. apply (Z.div_unique _ _ _ (end_date - start_date + US_PER_DAY)).
    - left. unfold US_PER_DAY, US_PER_HOUR, US_PER_MINUTE, US_PER_SECOND in *. lia.
    - lia. }
  rewrite E. reflexivity.
Qed.

End AllocatorMore.

(** *** The allocator on the example store *)

Lemma example_posts_keyed : NoDup (map post_id (posts example_posts)).
Proof. simpl. repeat constructor; simpl; intuition lia. Qed.

Lemma example_store_keyed : NoDup (map post_id (posts example_store)).
Proof. simpl. repeat constructor; simpl; intuition. Qed.

Lemma preview_names_each_post_once_witness :
  NoDup (map fst example_preview) /\
  (List.length example_preview <= List.length [1; 2])%nat.
Proof.
  apply (preview_names_each_post_once fromisoformat_date int_of_digits example_posts
           [1; 2] "optimal_times" example_optimal 7 example_now example_preview
           example_scheduled).
  - exact example_posts_keyed.
  - vm_compute. reflexivity.
Defined.

Lemma bulk_schedule_touches_only_named_witness :
  users example_scheduled = users example_posts /\
  analytics example_scheduled = analytics example_posts /\
  nth_error (posts example_scheduled) 2 = Some (draft 3 8).
Proof.
  destruct (bulk_schedule_touches_only_named fromisoformat_date int_of_digits
              example_posts [1; 2] "optimal_times" example_optimal 7 example_now
              (Returned (Some example_preview)) example_scheduled)
    as (Husers & Hanalytics & Hrows).
  - vm_compute. reflexivity.
  - split; [exact Husers | split; [exact Hanalytics|]].
    apply Hrows; [reflexivity|]. left. simpl. lia.
Defined.


Lemma allocated_post_becomes_due_witness :
  exists p, In p (scheduled_posts 63929390400000000 example_scheduled) /\
            post_id p = 1 /\ author_id p = 7.
Proof.
  apply (allocated_post_becomes_due fromisoformat_date int_of_digits example_posts
           [1; 2] "optimal_times" example_optimal 7 example_now example_preview
           example_scheduled 1 63929390400000000 63929390400000000).
  - exact example_posts_keyed.
  - vm_compute. reflexivity.
  - left. reflexivity.
  - unfold US_PER_MINUTE, US_PER_SECOND. lia.
Defined.

Lemma evenly_by_slots_inside_range_witness :
  Forall (fun entry => date_of 63839664000000000 <= date_of (snd entry)
                       <= date_of 63840009600000000)
    [(1, 63839696400000000); (2, 63839718000000000)].
Proof.
  apply (evenly_by_slots_inside_range int_of_digits ["09:00"%string; "15:00"%string]
           63840009600000000 [draft 1 7; draft 2 7] 63839664000000000 0%nat).
  vm_compute. reflexivity.
Defined.

Lemma optimal_times_chronological_witness :
  StronglySorted Z.lt (map snd example_preview).
Proof.
  apply (optimal_times_chronological fromisoformat_date int_of_digits example_posts
           [1; 2] example_optimal 7 example_now example_preview example_scheduled).
  vm_compute. reflexivity.
Defined.

Lemma optimal_times_on_the_hours_witness :
  exists day hour,
    date_of example_now <= day < date_of example_now + get (cfg_days_ahead example_optimal) 14 /\
    In hour [9; 12; 17; 20] /\
    63929408400000000 = combine_min day + hour * US_PER_HOUR.
Proof.
  apply (optimal_times_on_the_hours fromisoformat_date int_of_digits example_posts
           [1; 2] example_optimal 7 example_now example_preview example_scheduled)
    with (id := 2).
  - vm_compute. reflexivity.
  - right. left. reflexivity.
Defined.

Lemma specific_days_on_listed_weekdays_witness :
  In (weekday (date_of example_friday))
     (weekdays_of (get (cfg_days example_weekdays) ["Monday"%string])) /\
  date_of example_now <= date_of example_friday
  <= date_of example_now + 7 * get (cfg_weeks_ahead example_weekdays) 4.
Proof.
  apply (specific_days_on_listed_weekdays fromisoformat_date int_of_digits
           example_posts [1; 2] example_weekdays 7 example_now
           [(1, example_friday)]
           (snd (example_schedule example_posts [1; 2] "specific_days"
                   example_weekdays 7 example_now)))
    with (id := 1).
  - vm_compute. reflexivity.
  - left. reflexivity.
Defined.

Lemma rejected_exactly_when_witness :
  fst (example_schedule example_posts [1; 3] "optimal_times" example_optimal 7
         example_now) = Returned None
  <->
  [1; 3] = [] \/ ~ NoDup [1; 3] \/
  exists id, In id [1; 3] /\ ~ owned example_posts 7 id.
Proof.
  apply (rejected_exactly_when fromisoformat_date int_of_digits example_posts [1; 3]
           "optimal_times" example_optimal 7 example_now).
  exact example_posts_keyed.
Defined.

Lemma one_day_back_divides_by_zero_witness :
  example_route example_posts [1; 2] "evenly_spaced" example_backwards 7 example_now
  = (ServerError500 ZeroDivisionError, example_posts).
Proof.
  apply (one_day_back_divides_by_zero fromisoformat_date int_of_digits example_posts
           [1; 2] example_backwards 7 example_now "2024-01-02" "2024-01-01"
           63839750400000000 63839664000000000).
  - simpl. repeat constructor; simpl; intuition lia.
  - discriminate.
  - repeat constructor; simpl; intuition lia.
  - intros id [<-|[<-|[]]]; [exists (draft 1 7) | exists (draft 2 7)]; simpl; auto.
  - reflexivity.
  - reflexivity.
  - vm_compute. reflexivity.
  - vm_compute. reflexivity.
  - unfold US_PER_DAY, US_PER_HOUR, US_PER_MINUTE, US_PER_SECOND. lia.
Defined.

(** ** The publish worker *)

Lemma update_first_twice : forall A (sel : A -> bool) (f g : A -> A) rows,
  (forall x, sel x = true -> sel (f x) = true) ->
  update_first sel g (update_first sel f rows)
  = update_first sel (fun x => g (f x)) rows.
Proof.
  intros A sel f g rows Hf. induction rows as [|x rows IH]; simpl; [reflexivity|].
  destruct (sel x) eqn:Hx; simpl.
  - now rewrite (Hf x Hx).
  - now rewrite Hx, IH.
Qed.

Lemma first_update_other : forall A (sel other : A -> bool) (f : A -> A) rows,
  (forall x, other (f x) = other x) ->
  (forall x, sel x = true -> other x = false) ->
  first other (update_first sel f rows) = first other rows.
Proof.
  intros A sel other f rows Hf Hdisj. unfold first.
  induction rows as [|x rows IH]; simpl; [reflexivity|].
  destruct (sel x) eqn:Hx; simpl.
  - now rewrite Hf, (Hdisj x Hx).
  - now rewrite IH.
Qed.

Lemma NoDup_map_injective : forall A B (f : A -> B) l x y,
  NoDup (map f l) -> In x l -> In y l -> f x = f y -> x = y.
Proof.
  intros A B f l x y. induction l as [|z l IH]; simpl; intros Hnd Hx Hy E;
    [contradiction|].
  inversion Hnd as [|w ws Hnot Hnd']; subst.
  destruct Hx as [->|Hx], Hy as [->|Hy]; try reflexivity.
  - exfalso. apply Hnot. rewrite E. now apply in_map.
  - exfalso. apply Hnot. rewrite <- E. now apply in_map.
  - now apply IH.
Qed.

Lemma publish_and_record_posts : forall now a db post user,
  exists F,
    posts (fst (fst (publish_and_record now a db post user)))
    = update_first (by_id (post_id post)) F (posts db) /\
    (forall x, post_id (F x) = post_id x) /\
    (forall x, settled now (F x)).
Proof.
  intros now a db post user. unfold publish_and_record.
  destruct (publish_answer a) as [resp|e]; simpl.
  - destruct (bookkeeping_raises a); simpl.
    + destruct (handler_commit_raises a); simpl.
      * exists (with_published now resp).
        split; [reflexivity | split; [reflexivity | right; repeat split]].
      * exists (fun x => with_status FAILED (with_published now resp x)).
        split; [|split; [reflexivity | now left]].
        apply update_first_twice. intros x Hx. exact Hx.
    + exists (with_published now resp).
      split; [|split; [reflexivity | right; repeat split]].
      destruct (first _ _); reflexivity.
  - exists (with_status FAILED). split; [reflexivity|].
    split; [reflexivity | now left].
Qed.

Lemma publish_post_posts : forall now a db post,
  match first (fun u => user_id u =? author_id post) (users db) with
  | None => fst (publish_post now a db post) = db
  | Some _ =>
      exists F,
        posts (fst (publish_post now a db post))
        = update_first (by_id (post_id post)) F (posts db) /\
        (forall x, post_id (F x) = post_id x) /\
        (forall x, settled now (F x))
  end.
Proof.
  intros now a db post. unfold publish_post, publish_iteration.
  destruct (first _ (users db)) as [user|]; [|reflexivity].
  assert (Hfail : exists F,
            posts (fst (mark_failed db (post_id post)))
            = update_first (by_id (post_id post)) F (posts db) /\
            (forall x, post_id (F x) = post_id x) /\
            (forall x, settled now (F x))).
  { exists (with_status FAILED). split; [reflexivity|].
    split; [reflexivity | now left]. }
  destruct (negb (truthy (linkedin_access_token user))); [exact Hfail|].
  destruct (token_expired now user).
  - destruct (negb (truthy (linkedin_refresh_token user))); [exact Hfail|].
    destruct (refresh_answer a) as [td|e]; [|exact Hfail].
    destruct (apply_token_data now user td) as [user' [e|]].
    + exact Hfail.
    + destruct (publish_and_record_posts now a (update_user db user') post user')
        as (F & E & HF).
      destruct (publish_and_record now a (update_user db user') post user')
        as [[db' log] escaped]. exists F. split; [exact E | exact HF].
  - apply publish_and_record_posts.
Qed.

Lemma publish_post_keeps_row : forall now a db post i p,
  nth_error (posts db) i = Some p -> post_id p <> post_id post ->
  nth_error (posts (fst (publish_post now a db post))) i = Some p.
Proof.
  intros now a db post i p Hi Hne.
  pose proof (publish_post_posts now a db post) as H.
  destruct (first _ (users db)).
  - destruct H as (F & -> & _). apply update_first_keeps; [assumption|].
    unfold by_id. now apply Z.eqb_neq.
  - now rewrite H.
Qed.

Lemma publish_all_keeps_row : forall now answers todo db i p,
  (forall q, In q todo -> post_id p <> post_id q) ->
  nth_error (posts db) i = Some p ->
  nth_error (posts (fst (publish_all now answers todo db))) i = Some p.
Proof.
  intros now answers todo. induction todo as [|q rest IH]; intros db i p Hne Hi.
  - assumption.
  - rewrite publish_all_cons.
    pose proof (publish_post_keeps_row now (answers (post_id q)) db q i p Hi
                  (Hne q (or_introl eq_refl))) as H.
    destruct (snd (publish_iteration _ _ _ _)); [exact H|]. simpl.
    apply IH; [intros r Hr; apply Hne; now right | exact H].
Qed.

(** X11: when post identifiers are unique, a publish cycle leaves every
    post that is not due the same row at the same place, whatever LinkedIn
    answers. *)
Theorem cycle_leaves_other_posts : forall now answers db i p,
  NoDup (map post_id (posts db)) ->
  nth_error (posts db) i = Some p -> due now p = false ->
  nth_error (posts (fst (process_scheduled_posts now answers db))) i = Some p.
Proof.
  intros now answers db i p Hkey Hi Hdue. unfold process_scheduled_posts.
  apply publish_all_keeps_row; [|assumption].
  intros q Hq E. unfold scheduled_posts in Hq. apply filter_In in Hq as [Hq Hq'].
  assert (p = q) by (eapply NoDup_map_injective; eauto using nth_error_In).
  congruence.
Qed.

Lemma apply_token_data_id : forall now user td,
  user_id (fst (apply_token_data now user td)) = user_id user.
Proof.
  intros now user td. unfold apply_token_data.
  destruct (td_access_token td); [|reflexivity].
  destruct (td_expires_in td); [|reflexivity].
  destruct (datetime_add_seconds now z); reflexivity.
Qed.

Lemma update_user_ids : forall db u,
  map user_id (users (update_user db u)) = map user_id (users db).
Proof.
  intros db u. unfold update_user. simpl.
  induction (users db) as [|r rows IH]; simpl; [reflexivity|].
  destruct (Z.eqb_spec (user_id r) (user_id u)) as [E|_]; simpl.
  - now rewrite E.
  - now rewrite IH.
Qed.

Lemma publish_and_record_users : forall now a db post user,
  users (fst (fst (publish_and_record now a db post user))) = users db.
Proof.
  intros now a db post user. unfold publish_and_record.
  destruct (publish_answer a); simpl; [|reflexivity].
  destruct (bookkeeping_raises a); simpl.
  - destruct (handler_commit_raises a); reflexivity.
  - destruct (first _ _); reflexivity.
Qed.

Lemma publish_post_user_ids : forall now a db post,
  map user_id (users (fst (publish_post now a db post))) = map user_id (users db).
Proof.
  intros now a db post. unfold publish_post, publish_iteration.
  destruct (first _ (users db)) as [user|]; [|reflexivity].
  destruct (negb (truthy (linkedin_access_token user))); [reflexivity|].
  destruct (token_expired now user).
  - destruct (negb (truthy (linkedin_refresh_token user))); [reflexivity|].
    destruct (refresh_answer a) as [td|e]; [|reflexivity].
    pose proof (apply_token_data_id now user td) as Hid.
    destruct (apply_token_data now user td) as [user' [e|]]; simpl in Hid.
    + simpl. apply update_user_ids.
    + pose proof (publish_and_record_users now a (update_user db user') post user') as E.
      destruct (publish_and_record now a (update_user db user') post user')
        as [[db' log] escaped]. simpl in *. rewrite E. apply update_user_ids.
  - now rewrite publish_and_record_users.
Qed.

Lemma first_some_iff : forall A (key : A -> Z) rows k,
  (exists r, first (fun x => key x =? k) rows = Some r) <-> In k (map key rows).
Proof.
  intros A key rows k. unfold first. induction rows as [|x rows IH]; simpl.
  - split; [intros [r H]; discriminate | contradiction].
  - destruct (Z.eqb_spec (key x) k) as [E|Hne].
    + split; [now left | eauto].
    + rewrite IH. split; [now right | intros [E|H]; [contradiction | assumption]].
Qed.

Lemma publish_post_ids : forall now a db post,
  map post_id (posts (fst (publish_post now a db post))) = map post_id (posts db).
Proof.
  intros now a db post. pose proof (publish_post_posts now a db post) as H.
  destruct (first _ (users db)).
  - destruct H as (F & -> & HF & _). clear - HF.
    induction (posts db) as [|x rows IH]; simpl; [reflexivity|].
    destruct (by_id (post_id post) x); simpl; [now rewrite HF | now rewrite IH].
  - now rewrite H.
Qed.

Lemma publish_post_terminal : forall now a db post,
  In (author_id post) (map user_id (users db)) ->
  In (post_id post) (map post_id (posts db)) ->
  exists row, first (by_id (post_id post)) (posts (fst (publish_post now a db post)))
              = Some row /\ settled now row.
Proof.
  intros now a db post Huser Hrow.
  apply first_some_iff in Huser as [user Huser].
  apply (first_some_iff _ post_id) in Hrow as [row Hrow].
  pose proof (publish_post_posts now a db post) as H. rewrite Huser in H.
  destruct H as (F & -> & HF & Hterm). exists (F row). split; [|apply Hterm].
  apply first_update_first; [|exact Hrow].
  intros x Hx. unfold by_id in *. now rewrite HF.
Qed.

Lemma publish_post_first_other : forall now a db post k,
  k <> post_id post ->
  first (by_id k) (posts (fst (publish_post now a db post))) = first (by_id k) (posts db).
Proof.
  intros now a db post k Hne. pose proof (publish_post_posts now a db post) as H.
  destruct (first _ (users db)).
  - destruct H as (F & -> & HF & _). apply first_update_other.
    + intros x. unfold by_id. now rewrite HF.
    + intros x Hx. unfold by_id in *. apply Z.eqb_eq in Hx. apply Z.eqb_neq. congruence.
  - now rewrite H.
Qed.

Lemma publish_all_first_other : forall now answers todo db k,
  ~ In k (map post_id todo) ->
  first (by_id k) (posts (fst (publish_all now answers todo db)))
  = first (by_id k) (posts db).
Proof.
  intros now answers todo. induction todo as [|q rest IH]; intros db k Hk.
  - reflexivity.
  - rewrite publish_all_cons.
    assert (H : first (by_id k)
                  (posts (fst (publish_post now (answers (post_id q)) db q)))
                = first (by_id k) (posts db)).
    { apply publish_post_first_other. intros E. apply Hk. left. now symmetry. }
    destruct (snd (publish_iteration _ _ _ _)); [exact H|]. simpl.
    rewrite IH by (intros Hin; apply Hk; now right). exact H.
Qed.

(** An exception leaves an iteration only from the handler, after the
    bookkeeping raised. *)
Lemma publish_and_record_escapes : forall now a db post user,
  snd (publish_and_record now a db post user) = true ->
  bookkeeping_raises a = true /\ handler_commit_raises a = true.
Proof.
  intros now a db post user. unfold publish_and_record.
  destruct (publish_answer a); simpl; [|discriminate].
  destruct (bookkeeping_raises a); simpl.
  - destruct (handler_commit_raises a); simpl; [auto | discriminate].
  - destruct (first _ _); discriminate.
Qed.

Lemma publish_iteration_escapes : forall now a db post,
  snd (publish_iteration now a db post) = true ->
  bookkeeping_raises a = true /\ handler_commit_raises a = true.
Proof.
  intros now a db post. unfold publish_iteration.
  destruct (first _ (users db)) as [user|]; [|discriminate].
  destruct (negb (truthy (linkedin_access_token user))); [discriminate|].
  destruct (token_expired now user).
  - destruct (negb (truthy (linkedin_refresh_token user))); [discriminate|].
    destruct (refresh_answer a) as [td|e]; [|discriminate].
    destruct (apply_token_data now user td) as [user' [e|]]; [discriminate|].
    pose proof (publish_and_record_escapes now a (update_user db user') post user') as H.
    destruct (publish_and_record now a (update_user db user') post user')
      as [[db' log] escaped]. exact H.
  - apply publish_and_record_escapes.
Qed.

(** A due post is dealt with, or an earlier iteration ended the cycle. *)
Lemma publish_all_outcome : forall now answers todo db p,
  NoDup (map post_id todo) -> In p todo ->
  In (author_id p) (map user_id (users db)) ->
  In (post_id p) (map post_id (posts db)) ->
  exists row,
    first (by_id (post_id p)) (posts (fst (publish_all now answers todo db)))
    = Some row /\
    (settled now row \/
     (first (by_id (post_id p)) (posts db) = Some row /\
      exists q, In q todo /\
                bookkeeping_raises (answers (post_id q)) = true /\
                handler_commit_raises (answers (post_id q)) = true)).
Proof.
  intros now answers todo. induction todo as [|q rest IH];
    intros db p Hnd Hin Huser Hrow; [contradiction|].
  inversion Hnd as [|x xs Hnot Hnd']; subst.
  rewrite publish_all_cons.
  destruct Hin as [-> | Hin].
  - destruct (publish_post_terminal now (answers (post_id p)) db p Huser Hrow)
      as (row & Hfirst & Hs).
    exists row. split; [|now left].
    destruct (snd (publish_iteration _ _ _ _)); [exact Hfirst|]. simpl.
    now rewrite publish_all_first_other.
  - assert (Hne : post_id p <> post_id q).
    { intros E. apply Hnot. rewrite <- E. now apply in_map. }
    pose proof (publish_post_first_other now (answers (post_id q)) db q (post_id p) Hne)
      as Hother.
    destruct (snd (publish_iteration now (answers (post_id q)) db q)) eqn:Hesc.
    + apply publish_iteration_escapes in Hesc.
      apply (first_some_iff _ post_id) in Hrow as [row Hrow].
      exists row. split; [now rewrite Hother|]. right. split; [exact Hrow|].
      exists q. split; [now left | exact Hesc].
    + simpl.
      destruct (IH (fst (publish_post now (answers (post_id q)) db q)) p Hnd' Hin)
        as (row & Hfirst & Hcase).
      * now rewrite publish_post_user_ids.
      * now rewrite publish_post_ids.
      * exists row. split; [exact Hfirst|].
        destruct Hcase as [Hs | (Hsame & r & Hr & Hraise)]; [now left|].
        right. split; [now rewrite <- Hother|].
        exists r. split; [now right | exact Hraise].
Qed.

Lemma first_by_id_member : forall rows p,
  NoDup (map post_id rows) -> In p rows -> first (by_id (post_id p)) rows = Some p.
Proof.
  intros rows p Hnd Hin.
  destruct (first_of_member _ (by_id (post_id p)) _ _ Hin (Z.eqb_refl _)) as [row Hrow].
  rewrite Hrow. f_equal. unfold first in Hrow. apply find_some in Hrow as [Hin' E].
  apply Z.eqb_eq in E. eapply NoDup_map_injective; eauto.
Qed.

Lemma cycle_outcome : forall now answers db p,
  NoDup (map post_id (posts db)) ->
  In p (scheduled_posts now db) ->
  In (author_id p) (map user_id (users db)) ->
  exists row,
    first (by_id (post_id p)) (posts (fst (process_scheduled_posts now answers db)))
    = Some row /\
    (settled now row \/
     (row = p /\
      exists q, In q (scheduled_posts now db) /\
                bookkeeping_raises (answers (post_id q)) = true /\
                handler_commit_raises (answers (post_id q)) = true)).
Proof.
  intros now answers db p Hkey Hin Huser. unfold process_scheduled_posts.
  assert (Hp : In p (posts db))
    by (unfold scheduled_posts in Hin; now apply filter_In in Hin).
  destruct (publish_all_outcome now answers (scheduled_posts now db) db p)
    as (row & Hfirst & Hcase); try assumption.
  - unfold scheduled_posts. now apply NoDup_map_filter.
  - now apply in_map.
  - exists row. split; [exact Hfirst|].
    destruct Hcase as [Hs | (Hsame & Hq)]; [now left | right].
    split; [|exact Hq].
    rewrite (first_by_id_member _ _ Hkey Hp) in Hsame. congruence.
Qed.


(** The bookkeeping of post 1 raises and so does the commit of its handler:
    post 1 stays Published, the cycle is over, and post 2 is not looked at
    and is still Scheduled. *)
Example lost_session_ends_cycle :
  map status
    (posts (fst (process_scheduled_posts example_now (fun _ => example_lost_session)
                   example_two_due)))
  = [PUBLISHED; SCHEDULED] /\
  snd (process_scheduled_posts example_now (fun _ => example_lost_session)
         example_two_due)
  = [PublishCall 1 false; StatusSet 1 PUBLISHED; Commit; StatusSet 1 FAILED].
Proof. split; vm_compute; reflexivity. Qed.

(** X16: when post identifiers are unique, a due post the publish cycle at
    [now] left Published qualifies for the analytics sync of every cycle
    that runs within a day of [now]. *)
Theorem worker_published_post_is_synced : forall now answers db p row now',
  NoDup (map post_id (posts db)) ->
  In p (scheduled_posts now db) ->
  In (author_id p) (map user_id (users db)) ->
  first (by_id (post_id p)) (posts (fst (process_scheduled_posts now answers db)))
  = Some row ->
  status row = PUBLISHED ->
  now' - 1 * US_PER_DAY <= now ->
  needs_sync now' (fst (process_scheduled_posts now answers db)) row = true.
Proof.
  intros now answers db p row now' Hkey Hin Huser Hrow Hstatus Hnow.
  destruct (cycle_outcome now answers db p Hkey Hin Huser) as (row' & Hrow' & Hs).
  rewrite Hrow in Hrow'. injection Hrow' as <-.
  destruct Hs as [[Hs | (_ & Htime & Hid)] | [-> _]]; [congruence | |].
  2: { unfold scheduled_posts in Hin. apply filter_In in Hin as [_ Hdue].
       unfold due in Hdue. rewrite Hstatus in Hdue. discriminate. }
  unfold needs_sync. rewrite Hstatus, Hid, Htime. simpl.
  unfold one_day_ago. destruct (Z.leb_spec (now' - 1 * US_PER_DAY) now); [reflexivity | lia].
Qed.

Lemma publish_calls_app : forall l1 l2,
  publish_calls (l1 ++ l2) = publish_calls l1 ++ publish_calls l2.
Proof.
  induction l1 as [|e l1 IH]; intros l2; simpl; [reflexivity|].
  destruct e; simpl; rewrite IH; reflexivity.
Qed.

Lemma publish_and_record_calls : forall now a db post user,
  publish_calls (snd (fst (publish_and_record now a db post user))) = [post_id post].
Proof.
  intros now a db post user. unfold publish_and_record.
  destruct (publish_answer a); simpl; [|reflexivity].
  destruct (bookkeeping_raises a); simpl.
  - destruct (handler_commit_raises a); reflexivity.
  - destruct (first _ _); reflexivity.
Qed.

Lemma publish_post_calls : forall now a db post,
  publish_calls (snd (publish_post now a db post)) = [] \/
  publish_calls (snd (publish_post now a db post)) = [post_id post].
Proof.
  intros now a db post. unfold publish_post, publish_iteration.
  destruct (first _ (users db)) as [user|]; [|now left].
  destruct (negb (truthy (linkedin_access_token user))); [now left|].
  destruct (token_expired now user).
  - destruct (negb (truthy (linkedin_refresh_token user))); [now left|].
    destruct (refresh_answer a) as [td|e]; [|now left].
    destruct (apply_token_data now user td) as [user' [e|]]; [now left|].
    pose proof (publish_and_record_calls now a (update_user db user') post user') as E.
    destruct (publish_and_record now a (update_user db user') post user')
      as [[db' log] escaped]. simpl in *. now right.
  - right. apply publish_and_record_calls.
Qed.

Lemma publish_all_calls : forall now answers todo db,
  NoDup (map post_id todo) ->
  NoDup (publish_calls (snd (publish_all now answers todo db))) /\
  incl (publish_calls (snd (publish_all now answers todo db))) (map post_id todo).
Proof.
  intros now answers todo. induction todo as [|q rest IH]; intros db Hnd.
  - split; [constructor | apply incl_refl].
  - inversion Hnd as [|x xs Hnot Hnd']; subst. rewrite publish_all_cons.
    pose proof (publish_post_calls now (answers (post_id q)) db q) as Hq.
    destruct (snd (publish_iteration _ _ _ _)).
    + destruct Hq as [-> | ->].
      * split; [constructor | intros k []].
      * split; [repeat constructor; intros [] | intros k [<-|[]]; now left].
    + simpl. rewrite publish_calls_app.
      destruct (IH (fst (publish_post now (answers (post_id q)) db q)) Hnd')
        as [Hnd'' Hincl].
      destruct Hq as [-> | ->]; simpl.
      * split; [assumption | intros k Hk; right; now apply Hincl].
      * split.
        -- constructor; [|assumption]. intros Hin. apply Hnot. now apply Hincl.
        -- intros k [<-|Hk]; [now left | right; now apply Hincl].
Qed.

(** X13: when post identifiers are unique, a publish cycle makes at most
    one publish call per post, and only for posts that were due. *)
Theorem one_publish_call_per_post : forall now answers db,
  NoDup (map post_id (posts db)) ->
  NoDup (publish_calls (snd (process_scheduled_posts now answers db))) /\
  incl (publish_calls (snd (process_scheduled_posts now answers db)))
       (map post_id (scheduled_posts now db)).
Proof.
  intros now answers db Hkey. unfold process_scheduled_posts.
  apply publish_all_calls. unfold scheduled_posts. now apply NoDup_map_filter.
Qed.

(** X14: for a post whose author has a token that is not expired, a
    publish call that returns, with no failure after it, leaves the post
    Published with now and the returned identifiers, adds a metrics record
    of zeros synced at now when the post had none, keeps the metrics table
    as it was otherwise, and makes exactly one publish call. *)
Theorem successful_publish_records : forall now a db post user resp,
  In post (posts db) ->
  first (fun u => user_id u =? author_id post) (users db) = Some user ->
  truthy (linkedin_access_token user) = true ->
  token_expired now user = false ->
  publish_answer a = Returned resp ->
  bookkeeping_raises a = false ->
  (exists row,
     first (by_id (post_id post)) (posts db) = Some row /\
     first (by_id (post_id post)) (posts (fst (publish_post now a db post)))
     = Some (with_published now resp row)) /\
  (match first (fun r => an_post_id r =? post_id post) (analytics db) with
   | Some _ => analytics (fst (publish_post now a db post)) = analytics db
   | None =>
       analytics (fst (publish_post now a db post))
       = analytics db ++
         [mkAnalytics (post_id post) (user_id user) (Some 0) (Some 0) (Some 0)
            (Some 0) (Some 0) (Some now)]
   end) /\
  publish_calls (snd (publish_post now a db post)) = [post_id post].
Proof.
  intros now a db post user resp Hin Huser Htok Hexp Hpub Hbook.
  destruct (first_of_member _ (by_id (post_id post)) _ _ Hin (Z.eqb_refl _))
    as [row Hrow].
  unfold publish_post, publish_iteration. rewrite Huser, Htok, Hexp. simpl.
  unfold publish_and_record. rewrite Hpub, Hbook. simpl.
  split; [|split].
  - exists row. split; [assumption|].
    destruct (first _ (analytics db)); simpl;
      (apply first_update_first; [intros x Hx; exact Hx | exact Hrow]).
  - destruct (first _ (analytics db)); reflexivity.
  - destruct (first _ (analytics db)); reflexivity.
Qed.

(** X15: a token refresh that completes stores the new access token, the
    expiry now + expires_in seconds, and the new refresh token or, when the
    answer has none, the old one; the stored token counts as expired again
    exactly when expires_in is at most 0. *)
Theorem refreshed_token_expiry : forall now user td user',
  apply_token_data now user td = (user', None) ->
  exists token seconds,
    td_access_token td = Some token /\ td_expires_in td = Some seconds /\
    linkedin_access_token user' = Some token /\
    linkedin_token_expires_at user' = Some (now + seconds * US_PER_SECOND) /\
    linkedin_refresh_token user'
    = match td_refresh_token td with
      | Some r => Some r
      | None => linkedin_refresh_token user
      end /\
    (token_expired now user' = true <-> seconds <= 0).
Proof.
  intros now user td user'. unfold apply_token_data.
  destruct (td_access_token td) as [token|]; [|discriminate].
  destruct (td_expires_in td) as [seconds|]; [|discriminate].
  unfold datetime_add_seconds.
  destruct (_ && _); [|discriminate].
  intros E. injection E as <-. exists token, seconds.
  repeat split; try reflexivity; unfold token_expired; simpl;
    rewrite Z.leb_le; unfold US_PER_SECOND; lia.
Qed.

(** *** Examples *)

Lemma cycle_leaves_other_posts_witness :
  nth_error
    (posts (fst (process_scheduled_posts example_now (fun _ => example_good_answers)
                   example_mixed_store))) 1
  = Some (draft 2 7).
Proof.
  apply (cycle_leaves_other_posts example_now (fun _ => example_good_answers)
           example_mixed_store 1%nat (draft 2 7)).
  - simpl. repeat constructor; simpl; intuition lia.
  - reflexivity.
  - reflexivity.
Defined.


Lemma worker_published_post_is_synced_witness :
  needs_sync (example_now + US_PER_HOUR)
    (fst (process_scheduled_posts example_now (fun _ => example_good_answers)
            example_store))
    (with_published example_now example_response example_due_post)
  = true.
Proof.
  apply (worker_published_post_is_synced example_now (fun _ => example_good_answers)
           example_store example_due_post).
  - exact example_store_keyed.
  - vm_compute. left. reflexivity.
  - left. reflexivity.
  - vm_compute. reflexivity.
  - reflexivity.
  - unfold example_now, US_PER_DAY, US_PER_HOUR, US_PER_MINUTE, US_PER_SECOND. lia.
Defined.

Lemma one_publish_call_per_post_witness :
  NoDup (publish_calls
           (snd (process_scheduled_posts example_now (fun _ => example_good_answers)
                   example_store))) /\
  incl (publish_calls
          (snd (process_scheduled_posts example_now (fun _ => example_good_answers)
                  example_store)))
       (map post_id (scheduled_posts example_now example_store)).
Proof.
  apply (one_publish_call_per_post example_now (fun _ => example_good_answers)
           example_store).
  exact example_store_keyed.
Defined.

Lemma successful_publish_records_witness :
  (exists row,
     first (by_id 1) (posts example_store) = Some row /\
     first (by_id 1)
       (posts (fst (publish_post example_now example_good_answers example_store
                      example_due_post)))
     = Some (with_published example_now example_response row)) /\
  analytics (fst (publish_post example_now example_good_answers example_store
                    example_due_post))
  = [mkAnalytics 1 7 (Some 0) (Some 0) (Some 0) (Some 0) (Some 0) (Some example_now)] /\
  publish_calls (snd (publish_post example_now example_good_answers example_store
                        example_due_post)) = [1].
Proof.
  apply (successful_publish_records example_now example_good_answers example_store
           example_due_post example_user example_response).
  - left. reflexivity.
  - reflexivity.
  - reflexivity.
  - reflexivity.
  - reflexivity.
  - reflexivity.
Defined.

Lemma refreshed_token_expiry_witness :
  exists token seconds,
    td_access_token example_token = Some token /\
    td_expires_in example_token = Some seconds /\
    linkedin_access_token (fst (apply_token_data example_now example_expired_user
                                  example_token)) = Some token /\
    linkedin_token_expires_at (fst (apply_token_data example_now example_expired_user
                                      example_token))
    = Some (example_now + seconds * US_PER_SECOND) /\
    linkedin_refresh_token (fst (apply_token_data example_now example_expired_user
                                   example_token))
    = Some "refresh"%string /\
    (token_expired example_now
       (fst (apply_token_data example_now example_expired_user example_token)) = true
     <-> seconds <= 0).
Proof.
  apply (refreshed_token_expiry example_now example_expired_user example_token).
  vm_compute. reflexivity.
Defined.

(** ** The analytics sync *)

Lemma group_add_keys : forall uid post groups,
  map fst (group_add uid post groups)
  = if existsb (Z.eqb uid) (map fst groups) then map fst groups
    else map fst groups ++ [uid].
Proof.
  intros uid post groups. induction groups as [|[u ps] rest IH]; simpl; [reflexivity|].
  rewrite (Z.eqb_sym uid u). destruct (u =? uid); simpl; [reflexivity|].
  rewrite IH. destruct (existsb _ _); reflexivity.
Qed.

Lemma existsb_eqb_In : forall k l, existsb (Z.eqb k) l = true <-> In k l.
Proof.
  intros k l. rewrite existsb_exists. split.
  - intros (x & Hx & E). apply Z.eqb_eq in E. now subst.
  - intros H. exists k. split; [assumption | apply Z.eqb_refl].
Qed.

Lemma group_add_member : forall uid post groups u ps,
  NoDup (map fst groups) ->
  In (u, ps) (group_add uid post groups) ->
  (u <> uid /\ In (u, ps) groups) \/
  (u = uid /\ exists old, In (u, old) groups /\ ps = old ++ [post]) \/
  (u = uid /\ ~ In uid (map fst groups) /\ ps = [post]).
Proof.
  intros uid post groups u ps. induction groups as [|[v qs] rest IH]; simpl; intros Hnd.
  - intros [E|[]]. injection E as <- <-. right. right. auto.
  - inversion Hnd as [|x xs Hnot Hnd']; subst.
    destruct (Z.eqb_spec v uid) as [->|Hne]; simpl.
    + intros [E|H].
      * injection E as <- <-. right. left. split; [reflexivity|]. exists qs. auto.
      * left. split; [|now right]. intros ->. apply Hnot.
        apply in_map_iff. exists (uid, ps). auto.
    + intros [E|H].
      * injection E as <- <-. left. split; [assumption | now left].
      * destruct (IH Hnd' H) as [[Hu Hin] | [[Hu (old & Hin & E)] | [Hu [Hno E]]]].
        -- left. split; [assumption | now right].
        -- right. left. split; [assumption|]. exists old. split; [now right | assumption].
        -- right. right. split; [assumption|]. split; [|assumption].
           intros [E'|E']; [contradiction | now apply Hno].
Qed.

Lemma filter_snoc : forall A (f : A -> bool) l x,
  filter f (l ++ [x]) = filter f l ++ (if f x then [x] else []).
Proof. intros A f l x. rewrite filter_app. reflexivity. Qed.

Lemma filter_none : forall A (f : A -> bool) l,
  (forall x, In x l -> f x = false) -> filter f l = [].
Proof.
  intros A f l. induction l as [|x l IH]; simpl; intros H; [reflexivity|].
  rewrite (H x (or_introl eq_refl)). apply IH. intros y Hy. apply H. now right.
Qed.

Lemma grouped_step : forall groups seen post,
  grouped groups seen ->
  grouped (group_add (author_id post) post groups) (seen ++ [post]).
Proof.
  intros groups seen post (Hnd & Hgroups & Hkeys).
  assert (Hsub : forall k, In k (map fst groups) ->
                           In k (map fst (group_add (author_id post) post groups))).
  { intros k Hk. rewrite group_add_keys. destruct (existsb _ _); [assumption|].
    apply in_or_app. now left. }
  split; [|split].
  - rewrite group_add_keys. destruct (existsb _ _) eqn:E; [assumption|].
    apply NoDup_app; [assumption | repeat constructor; intros [] |].
    intros k Hk [<-|[]]. apply existsb_eqb_In in Hk. congruence.
  - intros u ps Hin. rewrite filter_snoc. unfold by_author at 2.
    apply (group_add_member _ _ _ _ _ Hnd) in Hin
      as [[Hu Hin] | [[-> (old & Hin & ->)] | [-> [Hno ->]]]].
    + destruct (Hgroups u ps Hin) as [Hne ->].
      destruct (Z.eqb_spec (author_id post) u) as [E|_]; [congruence|].
      now rewrite app_nil_r.
    + destruct (Hgroups _ old Hin) as [Hne ->]. rewrite Z.eqb_refl.
      split; [|reflexivity]. intros E. now apply app_eq_nil in E as [_ E].
    + rewrite Z.eqb_refl. split; [discriminate|].
      rewrite filter_none; [reflexivity|].
      intros q Hq. unfold by_author. apply Z.eqb_neq. intros E.
      apply Hno. rewrite <- E. now apply Hkeys.
  - intros p Hp. apply in_app_or in Hp as [Hp | [<-|[]]].
    + apply Hsub. now apply Hkeys.
    + rewrite group_add_keys. destruct (existsb _ _) eqn:E.
      * now apply existsb_eqb_In in E.
      * apply in_or_app. right. now left.
Qed.

Lemma grouped_fold : forall todo groups seen,
  grouped groups seen ->
  grouped (fold_left (fun g post => group_add (author_id post) post g) todo groups)
          (seen ++ todo).
Proof.
  induction todo as [|p rest IH]; intros groups seen H; simpl.
  - now rewrite app_nil_r.
  - replace (seen ++ p :: rest) with ((seen ++ [p]) ++ rest)
      by (rewrite <- app_assoc; reflexivity).
    apply IH. now apply grouped_step.
Qed.

Lemma posts_by_user_grouped : forall to_sync,
  grouped (posts_by_user to_sync) to_sync.
Proof.
  intros to_sync. apply (grouped_fold to_sync [] []).
  split; [constructor | split; [intros u ps [] | intros p []]].
Qed.

Lemma posts_by_user_keys : forall to_sync,
  incl (map fst (posts_by_user to_sync)) (map author_id to_sync).
Proof.
  intros to_sync u Hu. apply in_map_iff in Hu as ([u' ps] & <- & Hin). simpl.
  destruct (posts_by_user_grouped to_sync) as (_ & Hgroups & _).
  destruct (Hgroups _ _ Hin) as [Hne ->].
  destruct (filter (by_author u') to_sync) as [|p rest] eqn:E; [contradiction|].
  assert (Hp : In p (filter (by_author u') to_sync)) by (rewrite E; now left).
  apply filter_In in Hp as [Hp Hu]. apply Z.eqb_eq in Hu. subst u'.
  now apply in_map.
Qed.

(** X17: [posts_by_user] has one group per author; a group is never empty
    and holds the posts of its author in the order of the query; every post
    of the query has a group. *)
Theorem posts_by_user_groups : forall to_sync,
  NoDup (map fst (posts_by_user to_sync)) /\
  (forall u ps, In (u, ps) (posts_by_user to_sync) ->
                ps <> [] /\ ps = filter (fun p => author_id p =? u) to_sync) /\
  (forall p, In p to_sync -> In (author_id p) (map fst (posts_by_user to_sync))).
Proof. exact posts_by_user_grouped. Qed.

Lemma sync_record_key : forall now data a,
  record_key (fst (sync_record now data a)) = record_key a.
Proof.
  intros now data a. unfold sync_record, record_key. simpl.
  destruct (impressions a) as [shown|]; simpl; [|reflexivity].
  destruct (0 <? shown); simpl; [|reflexivity].
  destruct (bind _ _); reflexivity.
Qed.

Lemma update_first_same_key : forall A B (key : A -> B) (sel : A -> bool) rows row row',
  first sel rows = Some row -> key row' = key row ->
  map key (update_first sel (fun _ => row') rows) = map key rows.
Proof.
  intros A B key sel rows row row'. unfold first.
  induction rows as [|x rows IH]; simpl; [discriminate|].
  destruct (sel x); simpl.
  - intros E Hk. injection E as ->. now rewrite Hk.
  - intros E Hk. now rewrite IH.
Qed.

Lemma extends_refl : forall db, extends db db.
Proof. intros db. split; [reflexivity|]. exists []. now rewrite app_nil_r. Qed.

Lemma sync_post_extends : forall db0 now w uid acc post,
  session_extends db0 (fst acc) ->
  session_extends db0 (fst (sync_post now w uid acc post)).
Proof.
  intros db0 now w uid [s log] post [Hv Hd]. unfold sync_post. simpl in *.
  destruct (analytics_for w (post_id post)) as [data|e]; [|now split].
  destruct (first _ (analytics (view s))) as [row|] eqn:Hrow.
  - pose proof (sync_record_key now data row) as Hk.
    destruct (sync_record now data row) as [row' raised]. simpl in Hk.
    assert (Hv' : extends db0
                    (set_analytics (view s)
                       (update_first (fun r => an_post_id r =? post_id post)
                          (fun _ => row') (analytics (view s))))).
    { destruct Hv as [Hp (added & Ha)]. split; [exact Hp|]. exists added. simpl.
      now rewrite (update_first_same_key _ _ record_key _ _ row row' Hrow Hk). }
    destruct raised; simpl; split; assumption.
  - simpl.
    assert (Hv' : forall extra,
              extends db0 (set_analytics (view s) (analytics (view s) ++ extra))).
    { intros extra. destruct Hv as [Hp (added & Ha)]. split; [exact Hp|].
      exists (added ++ map record_key extra). simpl.
      now rewrite map_app, Ha, app_assoc. }
    split; [apply Hv' | assumption].
Qed.

Lemma sync_posts_extends : forall db0 now w uid group_posts acc,
  session_extends db0 (fst acc) ->
  session_extends db0 (fst (fold_left (sync_post now w uid) group_posts acc)).
Proof.
  intros db0 now w uid group_posts.
  induction group_posts as [|p rest IH]; intros acc H; simpl; [assumption|].
  apply IH. now apply sync_post_extends.
Qed.

Lemma sync_user_extends : forall db0 now w acc group,
  session_extends db0 (fst acc) ->
  session_extends db0 (fst (sync_user now w acc group)).
Proof.
  intros db0 now w [s log] [uid group_posts] H. unfold sync_user. simpl in *.
  destruct (first _ _) as [user|]; [|assumption].
  destruct (negb (truthy (linkedin_access_token user))); [assumption|].
  destruct (token_expired now user).
  - destruct (negb (truthy (linkedin_refresh_token user))); [assumption|].
    destruct (refresh_for w uid) as [td|e]; [|assumption].
    destruct (apply_token_data now user td) as [user' [e|]].
    + destruct H as [Hv Hd]. split; assumption.
    + apply sync_posts_extends. destruct H as [Hv Hd]. split; assumption.
  - now apply sync_posts_extends.
Qed.

Lemma sync_users_extends : forall db0 now w groups acc,
  session_extends db0 (fst acc) ->
  session_extends db0 (fst (fold_left (sync_user now w) groups acc)).
Proof.
  intros db0 now w groups. induction groups as [|g rest IH]; intros acc H; simpl;
    [assumption|].
  apply IH. now apply sync_user_extends.
Qed.

Lemma sync_cycle_extends : forall now w db,
  extends db (fst (sync_post_analytics now w db)).
Proof.
  intros now w db. unfold sync_post_analytics.
  pose proof (sync_users_extends db now w (posts_by_user (posts_to_sync now db))
                (mkSession db db, [])) as H.
  destruct (fold_left _ _ _) as [s log]. simpl in *.
  apply H. split; apply extends_refl.
Qed.

(** X18: a sync cycle leaves the posts table as it was. *)
Theorem sync_never_changes_posts : forall now w db,
  posts (fst (sync_post_analytics now w db)) = posts db.
Proof. intros now w db. apply sync_cycle_extends. Qed.

(** X19: a sync cycle keeps every metrics record at its place with its
    post, its account and its impressions, whatever LinkedIn answers. *)
Theorem sync_keeps_impressions : forall now w db i a,
  nth_error (analytics db) i = Some a ->
  exists a',
    nth_error (analytics (fst (sync_post_analytics now w db))) i = Some a' /\
    an_post_id a' = an_post_id a /\ an_user_id a' = an_user_id a /\
    impressions a' = impressions a.
Proof.
  intros now w db i a Hi.
  destruct (sync_cycle_extends now w db) as [_ (added & E)].
  assert (Hk : nth_error (map record_key (analytics (fst (sync_post_analytics now w db)))) i
               = Some (record_key a)).
  { rewrite E, nth_error_app1.
    - now rewrite nth_error_map, Hi.
    - rewrite length_map. apply nth_error_Some. congruence. }
  rewrite nth_error_map in Hk.
  destruct (nth_error (analytics (fst (sync_post_analytics now w db))) i) as [a'|];
    [|discriminate].
  exists a'. split; [reflexivity|]. simpl in Hk. unfold record_key in Hk.
  injection Hk as H1 H2 H3. auto.
Qed.

Lemma refresh_calls_app : forall l1 l2,
  refresh_calls (l1 ++ l2) = refresh_calls l1 ++ refresh_calls l2.
Proof.
  induction l1 as [|e l1 IH]; intros l2; simpl; [reflexivity|].
  destruct e; simpl; rewrite IH; reflexivity.
Qed.

Lemma sync_post_refresh : forall now w uid acc post,
  refresh_calls (snd (sync_post now w uid acc post)) = refresh_calls (snd acc).
Proof.
  intros now w uid [s log] post. unfold sync_post.
  destruct (analytics_for w (post_id post)) as [data|e]; simpl.
  - destruct (first _ _) as [row|].
    + destruct (sync_record now data row) as [row' [e|]]; simpl;
        rewrite ?refresh_calls_app; simpl; rewrite ?app_nil_r;
        rewrite ?refresh_calls_app; simpl; rewrite ?app_nil_r; reflexivity.
    + simpl. rewrite refresh_calls_app. simpl. apply app_nil_r.
  - rewrite refresh_calls_app. simpl. apply app_nil_r.
Qed.

Lemma sync_posts_refresh : forall now w uid group_posts acc,
  refresh_calls (snd (fold_left (sync_post now w uid) group_posts acc))
  = refresh_calls (snd acc).
Proof.
  intros now w uid group_posts.
  induction group_posts as [|p rest IH]; intros acc; simpl; [reflexivity|].
  now rewrite IH, sync_post_refresh.
Qed.

Lemma sync_user_calls_shape : forall now w acc group,
  (refresh_calls (snd (sync_user now w acc group)) = refresh_calls (snd acc) \/
   refresh_calls (snd (sync_user now w acc group)) = refresh_calls (snd acc) ++ [fst group])
  /\
  (analytics_calls (snd (sync_user now w acc group)) = analytics_calls (snd acc) \/
   analytics_calls (snd (sync_user now w acc group))
   = analytics_calls (snd acc) ++ map post_id (snd group)).
Proof.
  intros now w [s log] [uid group_posts]. unfold sync_user. simpl.
  destruct (first _ _) as [user|]; [|split; now left].
  destruct (negb (truthy (linkedin_access_token user))); [split; now left|].
  destruct (token_expired now user).
  - destruct (negb (truthy (linkedin_refresh_token user))); [split; now left|].
    assert (Hr : refresh_calls (log ++ [RefreshCall uid]) = refresh_calls log ++ [uid])
      by (rewrite refresh_calls_app; reflexivity).
    assert (Ha : analytics_calls (log ++ [RefreshCall uid]) = analytics_calls log)
      by (rewrite analytics_calls_app; simpl; apply app_nil_r).
    destruct (refresh_for w uid) as [td|e]; simpl.
    + destruct (apply_token_data now user td) as [user' [e|]]; simpl.
      * split; [now right | now left].
      * rewrite sync_posts_refresh, sync_posts_calls. simpl.
        rewrite refresh_calls_app, analytics_calls_app, Hr, Ha. simpl.
        rewrite !app_nil_r. split; now right.
    + split; [now right | now left].
  - rewrite sync_posts_refresh, sync_posts_calls. simpl. split; [now left | now right].
Qed.

Lemma NoDup_drop_middle : forall A (a b c : list A),
  NoDup (a ++ b ++ c) -> NoDup (a ++ c).
Proof.
  intros A a b c H.
  apply (NoDup_app_remove_l b).
  eapply Permutation_NoDup; [|exact H].
  rewrite !app_assoc. apply Permutation_app_tail, Permutation_app_comm.
Qed.

Lemma sync_users_refresh_once : forall now w groups acc,
  NoDup (refresh_calls (snd acc) ++ map fst groups) ->
  NoDup (refresh_calls (snd (fold_left (sync_user now w) groups acc))) /\
  incl (refresh_calls (snd (fold_left (sync_user now w) groups acc)))
       (refresh_calls (snd acc) ++ map fst groups).
Proof.
  intros now w groups. induction groups as [|g rest IH]; intros acc Hr; simpl in *.
  - rewrite !app_nil_r in *. split; [assumption | apply incl_refl].
  - destruct (sync_user_calls_shape now w acc g) as [Sr _].
    destruct (IH (sync_user now w acc g)) as [Hr1 Hr2].
    + destruct Sr as [-> | ->].
      * now apply NoDup_remove_1 in Hr.
      * now rewrite <- app_assoc.
    + split; [assumption|].
      intros k Hk. apply Hr2 in Hk. destruct Sr as [E | E]; rewrite E in Hk.
      * apply in_app_or in Hk as [Hk|Hk]; apply in_or_app;
          [now left | right; now right].
      * now rewrite <- app_assoc in Hk.
Qed.

Lemma sync_users_analytics_once : forall now w groups acc,
  NoDup (analytics_calls (snd acc) ++ flat_map (fun g => map post_id (snd g)) groups) ->
  NoDup (analytics_calls (snd (fold_left (sync_user now w) groups acc))) /\
  incl (analytics_calls (snd (fold_left (sync_user now w) groups acc)))
       (analytics_calls (snd acc) ++ flat_map (fun g => map post_id (snd g)) groups).
Proof.
  intros now w groups. induction groups as [|g rest IH]; intros acc Ha; simpl in *.
  - rewrite !app_nil_r in *. split; [assumption | apply incl_refl].
  - destruct (sync_user_calls_shape now w acc g) as [_ Sa].
    destruct (IH (sync_user now w acc g)) as [Ha1 Ha2].
    + destruct Sa as [-> | ->].
      * now apply NoDup_drop_middle in Ha.
      * now rewrite <- app_assoc.
    + split; [assumption|].
      intros k Hk. apply Ha2 in Hk. destruct Sa as [E | E]; rewrite E in Hk.
      * apply in_app_or in Hk as [Hk|Hk]; apply in_or_app; [now left | right].
        apply in_or_app. now right.
      * now rewrite <- app_assoc in Hk.
Qed.

Lemma group_add_flat : forall uid post groups,
  Permutation (flat_map snd (group_add uid post groups)) (post :: flat_map snd groups).
Proof.
  intros uid post groups. induction groups as [|[u ps] rest IH]; simpl.
  - reflexivity.
  - destruct (u =? uid); simpl.
    + rewrite <- app_assoc. simpl. symmetry. apply Permutation_middle.
    + rewrite IH. symmetry. apply Permutation_middle.
Qed.

Lemma posts_by_user_flat : forall to_sync,
  Permutation (flat_map snd (posts_by_user to_sync)) to_sync.
Proof.
  intros to_sync. unfold posts_by_user.
  enough (H : forall groups,
             Permutation
               (flat_map snd (fold_left (fun g post => group_add (author_id post) post g)
                                to_sync groups))
               (flat_map snd groups ++ to_sync)) by apply (H []).
  induction to_sync as [|p rest IH]; intros groups; simpl.
  - now rewrite app_nil_r.
  - rewrite IH, group_add_flat. apply Permutation_middle.
Qed.

Lemma flat_map_ids : forall groups : list (Z * list Post),
  flat_map (fun g => map post_id (snd g)) groups = map post_id (flat_map snd groups).
Proof.
  induction groups as [|g rest IH]; simpl; [reflexivity|].
  now rewrite map_app, IH.
Qed.

Lemma NoDup_map_firstn : forall A B (f : A -> B) n l,
  NoDup (map f l) -> NoDup (map f (firstn n l)).
Proof.
  intros A B f n l H. rewrite <- (firstn_skipn n l), map_app in H.
  now apply NoDup_app_remove_r in H.
Qed.

(** X20: a sync cycle asks for a new token at most once per account, and
    only for authors of posts it selected. *)
Theorem sync_refreshes_each_account_once : forall now w db,
  NoDup (refresh_calls (snd (sync_post_analytics now w db))) /\
  incl (refresh_calls (snd (sync_post_analytics now w db)))
       (map author_id (posts_to_sync now db)).
Proof.
  intros now w db. unfold sync_post_analytics.
  pose proof (sync_users_refresh_once now w (posts_by_user (posts_to_sync now db))
                (mkSession db db, [])) as H.
  destruct (fold_left _ _ _) as [s log]. simpl in *.
  destruct H as [Hnd Hincl]; [apply posts_by_user_grouped|].
  split; [exact Hnd|].
  intros k Hk. now apply posts_by_user_keys, Hincl.
Qed.

(** X21: when post identifiers are unique, a sync cycle asks LinkedIn for
    the analytics of a post at most once, and only for posts it selected. *)
Theorem sync_requests_each_post_once : forall now w db,
  NoDup (map post_id (posts db)) ->
  NoDup (analytics_calls (snd (sync_post_analytics now w db))) /\
  incl (analytics_calls (snd (sync_post_analytics now w db)))
       (map post_id (posts_to_sync now db)).
Proof.
  intros now w db Hkey. unfold sync_post_analytics.
  pose proof (sync_users_analytics_once now w (posts_by_user (posts_to_sync now db))
                (mkSession db db, [])) as H.
  destruct (fold_left _ _ _) as [s log]. simpl in *.
  assert (Hperm : Permutation
                    (flat_map (fun g => map post_id (snd g))
                       (posts_by_user (posts_to_sync now db)))
                    (map post_id (posts_to_sync now db))).
  { rewrite flat_map_ids. apply Permutation_map, posts_by_user_flat. }
  destruct H as [Ha1 Ha2].
  - eapply Permutation_NoDup; [symmetry; exact Hperm|].
    unfold posts_to_sync. now apply NoDup_map_firstn, NoDup_map_filter.
  - split; [exact Ha1|].
    intros k Hk. apply Ha2 in Hk. eapply Permutation_in; eassumption.
Qed.

(** *** Examples *)

Lemma sync_keeps_impressions_witness :
  exists a',
    nth_error (analytics (fst (sync_post_analytics example_now example_sync_answers
                                 example_summary_store))) 0 = Some a' /\
    an_post_id a' = 1 /\ an_user_id a' = 7 /\ impressions a' = Some 100.
Proof.
  apply (sync_keeps_impressions example_now example_sync_answers example_summary_store
           0%nat (example_metrics 1 2)).
  reflexivity.
Defined.

Lemma sync_requests_each_post_once_witness :
  NoDup (analytics_calls (snd (sync_post_analytics example_now example_sync_answers
                                 example_summary_store))) /\
  incl (analytics_calls (snd (sync_post_analytics example_now example_sync_answers
                                example_summary_store)))
       (map post_id (posts_to_sync example_now example_summary_store)).
Proof.
  apply (sync_requests_each_post_once example_now example_sync_answers
           example_summary_store).
  simpl. repeat constructor; simpl; intuition lia.
Defined.

(** ** Row operations of [app/crud.py] *)

Lemma first_selects : forall A (sel : A -> bool) rows r,
  first sel rows = Some r -> In r rows /\ sel r = true.
Proof. intros A sel rows r H. apply find_some in H. exact H. Qed.

Lemma filter_update_first : forall A (keep sel : A -> bool) (f : A -> A) rows,
  (forall x, sel x = true -> keep x = false /\ keep (f x) = false) ->
  filter keep (update_first sel f rows) = filter keep rows.
Proof.
  intros A keep sel f rows H. induction rows as [|x rows IH]; simpl; [reflexivity|].
  destruct (sel x) eqn:Hx; simpl.
  - destruct (H x Hx) as [-> ->]. reflexivity.
  - now rewrite IH.
Qed.

Lemma filter_remove_first : forall A (keep sel : A -> bool) rows,
  (forall x, sel x = true -> keep x = false) ->
  filter keep (remove_first sel rows) = filter keep rows.
Proof.
  intros A keep sel rows H. induction rows as [|x rows IH]; simpl; [reflexivity|].
  destruct (sel x) eqn:Hx; simpl.
  - now rewrite (H x Hx).
  - now rewrite IH.
Qed.

Lemma owned_row_not_other : forall pid uid p,
  Crud.owned_row pid uid p = true -> other_account uid p = false.
Proof.
  intros pid uid p H. unfold Crud.owned_row in H. apply andb_true_iff in H as [_ H].
  unfold other_account. now rewrite H.
Qed.

(** X22: [crud.publish_post] and [crud.delete_post] leave the posts of
    every other account as they were, and do nothing at all and return
    [None] when the caller owns no post with the identifier. *)
Theorem crud_leaves_other_accounts : forall now db pid uid linkedin_id share_url,
  (filter (other_account uid)
     (posts (snd (Crud.publish_post now db pid uid linkedin_id share_url)))
   = filter (other_account uid) (posts db)) /\
  (filter (other_account uid) (posts (snd (Crud.delete_post db pid uid)))
   = filter (other_account uid) (posts db)) /\
  (~ owned db uid pid ->
     Crud.publish_post now db pid uid linkedin_id share_url = (None, db) /\
     Crud.delete_post db pid uid = (None, db)).
Proof.
  intros now db pid uid linkedin_id share_url. split; [|split].
  - unfold Crud.publish_post.
    destruct (first _ _) as [row|] eqn:Hrow; [|reflexivity]. simpl.
    apply first_selects in Hrow as [_ Hrow]. apply filter_update_first.
    intros x Hx. split; [eapply owned_row_not_other; eassumption|].
    apply owned_row_not_other in Hrow. exact Hrow.
  - unfold Crud.delete_post.
    destruct (first _ _) as [row|]; [|reflexivity]. simpl.
    apply filter_remove_first. intros x Hx. eapply owned_row_not_other; eassumption.
  - intros Hno.
    assert (E : first (Crud.owned_row pid uid) (posts db) = None).
    { destruct (first _ _) as [row|] eqn:Hrow; [|reflexivity].
      exfalso. apply Hno. apply first_selects in Hrow as [Hin Hrow].
      unfold Crud.owned_row in Hrow. apply andb_true_iff in Hrow as [H1 H2].
      apply Z.eqb_eq in H1, H2. exists row. auto. }
    unfold Crud.publish_post, Crud.delete_post. rewrite E. auto.
Qed.

Lemma remove_first_key : forall A (key : A -> Z) (sel : A -> bool) rows row k,
  NoDup (map key rows) -> first sel rows = Some row -> key row = k ->
  ~ In k (map key (remove_first sel rows)) /\
  (forall x, In x rows -> key x <> k -> In x (remove_first sel rows)) /\
  (forall x, In x (remove_first sel rows) -> In x rows).
Proof.
  intros A key sel rows row k. unfold first.
  induction rows as [|x rows IH]; simpl; intros Hnd Hrow Hk; [discriminate|].
  inversion Hnd as [|y ys Hnot Hnd']; subst.
  destruct (sel x) eqn:Hx.
  - injection Hrow as ->. split; [assumption|]. split.
    + intros y [->|Hy] Hne; [contradiction | assumption].
    + intros y Hy. now right.
  - destruct (IH Hnd' Hrow eq_refl) as (H1 & H2 & H3). split; [|split].
    + simpl. intros [E|H]; [|contradiction].
      apply Hnot. rewrite E. apply find_some in Hrow as [Hin _]. now apply in_map.
    + intros y [->|Hy] Hne; [now left | right; now apply H2].
    + intros y [->|Hy]; [now left | right; now apply H3].
Qed.

Lemma first_none_iff : forall A (key : A -> Z) rows k,
  first (fun x => key x =? k) rows = None <-> ~ In k (map key rows).
Proof.
  intros A key rows k. rewrite <- first_some_iff.
  destruct (first _ rows) as [r|].
  - split; [discriminate | intros H; exfalso; apply H; eauto].
  - split; [intros _ [r Hr]; discriminate | reflexivity].
Qed.

Lemma remove_first_none : forall A (sel : A -> bool) rows,
  first sel rows = None -> remove_first sel rows = rows.
Proof.
  intros A sel rows. unfold first. induction rows as [|x rows IH]; simpl;
    [reflexivity|].
  destruct (sel x); [discriminate|]. intros H. now rewrite IH.
Qed.

(** X23: with unique post identifiers and one metrics record per post, a
    [crud.delete_post] that returns a row returns the caller's post with the
    identifier; afterwards [get_post] finds nothing under the identifier,
    and exactly the posts and the metrics records of other identifiers
    remain. *)
Theorem delete_post_removes : forall db pid uid row,
  NoDup (map post_id (posts db)) ->
  NoDup (map an_post_id (analytics db)) ->
  fst (Crud.delete_post db pid uid) = Some row ->
  post_id row = pid /\ author_id row = uid /\ In row (posts db) /\
  Crud.get_post (snd (Crud.delete_post db pid uid)) pid = None /\
  (forall p, In p (posts (snd (Crud.delete_post db pid uid)))
             <-> In p (posts db) /\ post_id p <> pid) /\
  (forall a, In a (analytics (snd (Crud.delete_post db pid uid)))
             <-> In a (analytics db) /\ an_post_id a <> pid).
Proof.
  intros db pid uid row Hkey Hakey H. unfold Crud.delete_post in *.
  destruct (first (Crud.owned_row pid uid) (posts db)) as [r|] eqn:Hrow;
    [|discriminate].
  simpl in H. injection H as ->. simpl.
  pose proof (first_selects _ _ _ _ Hrow) as [Hin Hsel].
  unfold Crud.owned_row in Hsel. apply andb_true_iff in Hsel as [H1 H2].
  apply Z.eqb_eq in H1, H2.
  destruct (remove_first_key _ post_id _ _ _ pid Hkey Hrow H1) as (Hgone & Hkeep & Hsub).
  split; [assumption|]. split; [assumption|]. split; [assumption|].
  split; [|split].
  - unfold Crud.get_post. simpl. now apply first_none_iff.
  - intros p. split.
    + intros Hp. split; [now apply Hsub|].
      intros E. apply (in_map post_id) in Hp. rewrite E in Hp. exact (Hgone Hp).
    + intros [Hp Hne]. now apply Hkeep.
  - intros a. rewrite H1.
    destruct (first (fun a => an_post_id a =? pid) (analytics db)) as [rec|] eqn:Hrec.
    + pose proof (first_selects _ _ _ _ Hrec) as [_ Hid]. apply Z.eqb_eq in Hid.
      destruct (remove_first_key _ an_post_id _ _ _ pid Hakey Hrec Hid)
        as (Hg & Hk & Hs).
      split.
      * intros Ha. split; [now apply Hs|].
        intros E. apply (in_map an_post_id) in Ha. rewrite E in Ha. exact (Hg Ha).
      * intros [Ha Hne]. now apply Hk.
    + rewrite (remove_first_none _ _ _ Hrec). split; [|now intros [Ha _]].
      intros Ha. split; [assumption|].
      intros E. apply (first_none_iff _ an_post_id) in Hrec. apply Hrec.
      apply (in_map an_post_id) in Ha. now rewrite E in Ha.
Qed.

Lemma update_first_member : forall A (sel : A -> bool) (f : A -> A) rows row,
  first sel rows = Some row -> In (f row) (update_first sel f rows).
Proof.
  intros A sel f rows row. unfold first.
  induction rows as [|x rows IH]; simpl; [discriminate|].
  destruct (sel x).
  - intros E. injection E as ->. now left.
  - intros E. right. now apply IH.
Qed.

(** X24: when post identifiers are unique, a post [crud.publish_post]
    marked Published is in the store, is not picked up by any later publish
    cycle, and qualifies for the analytics sync of every cycle within a
    day. *)
Theorem marked_published_is_synced_not_republished :
  forall now db pid uid linkedin_id share_url row now',
  NoDup (map post_id (posts db)) ->
  fst (Crud.publish_post now db pid uid linkedin_id share_url) = Some row ->
  In row (posts (snd (Crud.publish_post now db pid uid linkedin_id share_url))) /\
  (forall p,
     In p (scheduled_posts now'
             (snd (Crud.publish_post now db pid uid linkedin_id share_url))) ->
     post_id p <> pid) /\
  (now' - 1 * US_PER_DAY <= now ->
   needs_sync now' (snd (Crud.publish_post now db pid uid linkedin_id share_url)) row
   = true).
Proof.
  intros now db pid uid linkedin_id share_url row now' Hkey H.
  unfold Crud.publish_post in *.
  destruct (first (Crud.owned_row pid uid) (posts db)) as [r|] eqn:Hrow;
    [|discriminate].
  simpl in H. injection H as <-. simpl.
  pose proof (first_selects _ _ _ _ Hrow) as [Hin Hsel].
  unfold Crud.owned_row in Hsel. apply andb_true_iff in Hsel as [H1 _].
  apply Z.eqb_eq in H1.
  set (row' := mkPost (post_id r) (author_id r) (content r) (image_url r) PUBLISHED
                 (scheduled_time r) (Some now) (Some linkedin_id) (Some share_url)).
  assert (Hmember : In row' (update_first (Crud.owned_row pid uid) (fun _ => row')
                               (posts db)))
    by (apply (update_first_member _ _ (fun _ => row') _ r); exact Hrow).
  assert (Hids : map post_id (update_first (Crud.owned_row pid uid) (fun _ => row')
                                (posts db)) = map post_id (posts db)).
  { apply (update_first_same_key _ _ post_id _ _ r row' Hrow). reflexivity. }
  split; [exact Hmember|]. split.
  - intros p Hp E. unfold scheduled_posts in Hp. apply filter_In in Hp as [Hp Hdue].
    simpl in Hp.
    assert (p = row').
    { eapply (NoDup_map_injective _ _ post_id); [|exact Hp|exact Hmember|].
      - now rewrite Hids.
      - simpl. congruence. }
    subst p. discriminate.
  - intros Hnow. unfold needs_sync, one_day_ago. simpl. apply orb_true_iff. left.
    apply Z.leb_le. unfold US_PER_DAY, US_PER_HOUR, US_PER_MINUTE, US_PER_SECOND in Hnow.
    lia.
Qed.

(** *** Examples *)

Lemma delete_post_removes_witness :
  post_id example_unsynced_post = 1 /\ author_id example_unsynced_post = 7 /\
  In example_unsynced_post (posts example_unsynced_store) /\
  Crud.get_post (snd (Crud.delete_post example_unsynced_store 1 7)) 1 = None /\
  (forall p, In p (posts (snd (Crud.delete_post example_unsynced_store 1 7)))
             <-> In p (posts example_unsynced_store) /\ post_id p <> 1) /\
  (forall a, In a (analytics (snd (Crud.delete_post example_unsynced_store 1 7)))
             <-> In a (analytics example_unsynced_store) /\ an_post_id a <> 1).
Proof.
  apply (delete_post_removes example_unsynced_store 1 7 example_unsynced_post).
  - simpl. repeat constructor; simpl; intuition.
  - simpl. repeat constructor; simpl; intuition.
  - reflexivity.
Defined.

Lemma marked_published_is_synced_not_republished_witness :
  In (with_published example_now example_response example_due_post)
     (posts (snd (Crud.publish_post example_now example_store 1 7 "urn:li:share:1" ""))) /\
  (forall p,
     In p (scheduled_posts example_now
             (snd (Crud.publish_post example_now example_store 1 7 "urn:li:share:1" ""))) ->
     post_id p <> 1) /\
  (example_now - 1 * US_PER_DAY <= example_now ->
   needs_sync example_now
     (snd (Crud.publish_post example_now example_store 1 7 "urn:li:share:1" ""))
     (with_published example_now example_response example_due_post)
   = true).
Proof.
  apply (marked_published_is_synced_not_republished example_now example_store 1 7
           "urn:li:share:1" "" (with_published example_now example_response
                                  example_due_post) example_now).
  - exact example_store_keyed.
  - reflexivity.
Defined.

(** ** The analytics summary *)

Lemma best_from_best : forall rows todo seen best e0 result,
  best_from rows todo best e0 = Returned result ->
  match best with
  | None => e0 = 0
  | Some post => In post seen /\ engagement_in rows post e0 /\ 0 < e0
  end ->
  (forall post e, In post seen -> engagement_in rows post e -> e <= e0) ->
  exists e1,
    match result with
    | None => e1 = 0
    | Some post => In post (seen ++ todo) /\ engagement_in rows post e1 /\ 0 < e1
    end /\
    (forall post e, In post (seen ++ todo) -> engagement_in rows post e -> e <= e1).
Proof.
  intros rows todo. induction todo as [|post rest IH];
    intros seen best e0 result H Hbest Hmax; simpl in H.
  - injection H as <-. rewrite app_nil_r. exists e0. split; assumption.
  - replace (seen ++ post :: rest) with ((seen ++ [post]) ++ rest)
      by (rewrite <- app_assoc; reflexivity).
    destruct (first _ rows) as [a|] eqn:Ha.
    + invert_bind H. rename v into e.
      assert (He : engagement_in rows post e) by (exists a; auto).
      destruct (Z.ltb_spec e0 e) as [Hlt|Hge].
      * apply (IH (seen ++ [post]) _ _ _ H).
        -- split; [apply in_or_app; right; now left|].
           split; [assumption|]. destruct best as [b|]; [destruct Hbest; lia | lia].
        -- intros q eq Hq Heq. apply in_app_or in Hq as [Hq | [<-|[]]].
           ++ specialize (Hmax q eq Hq Heq). lia.
           ++ destruct Heq as (a' & Ha' & Ea'). rewrite Ha in Ha'.
              injection Ha' as <-. rewrite E in Ea'. injection Ea' as <-. lia.
      * apply (IH (seen ++ [post]) _ _ _ H).
        -- destruct best as [b|]; [|assumption].
           destruct Hbest as (Hb & Hbe & Hpos).
           split; [apply in_or_app; now left | split; assumption].
        -- intros q eq Hq Heq. apply in_app_or in Hq as [Hq | [<-|[]]].
           ++ now apply (Hmax q eq).
           ++ destruct Heq as (a' & Ha' & Ea'). rewrite Ha in Ha'.
              injection Ha' as <-. rewrite E in Ea'. injection Ea' as <-. lia.
    + apply (IH (seen ++ [post]) _ _ _ H).
      * destruct best as [b|]; [|assumption].
        destruct Hbest as (Hb & Hbe & Hpos).
        split; [apply in_or_app; now left | split; assumption].
      * intros q eq Hq Heq. apply in_app_or in Hq as [Hq | [<-|[]]].
        -- now apply (Hmax q eq).
        -- destruct Heq as (a' & Ha' & _). congruence.
Qed.

Section SummaryFacts.

Variable clicks : Analytics -> option Z.

(** X25: when the summary returns, no post of the period has more
    engagement (likes + comments + shares of its metrics record) than [top];
    the post it reports as best performing is a post of the period with
    engagement [top] > 0, and it reports none only when [top] is 0, that is
    when no post has positive engagement. *)
Theorem best_post_has_most_engagement : forall db uid days now summary start_date,
  get_analytics_summary clicks db uid days now = Returned summary ->
  datetime_add_days now (- days) = Returned start_date ->
  let selected := summary_posts db uid start_date now in
  let rows := summary_rows db selected in
  exists top,
    (forall post e, In post selected -> engagement_in rows post e -> e <= top) /\
    match best_performing_post summary with
    | None => top = 0
    | Some id =>
        0 < top /\
        exists post, In post selected /\ post_id post = id /\
                     engagement_in rows post top
    end.
Proof.
  intros db uid days now summary start_date H Hstart selected rows.
  unfold get_analytics_summary in H. rewrite Hstart in H. simpl in H.
  do 6 invert_bind H. invert_bind H. injection H as <-. simpl.
  fold selected in E5. fold rows in E5.
  destruct (best_from_best rows selected [] None 0 _ E5 eq_refl) as (top & Hbest & Hmax).
  { intros post e []. }
  simpl in *. exists top. split; [exact Hmax|].
  destruct v5 as [post|]; simpl; [|assumption].
  destruct Hbest as (Hin & He & Hpos). split; [assumption|].
  exists post. auto.
Qed.

Lemma sum_from_null : forall column rows acc a,
  In a rows -> column a = None -> sum_from acc column rows = Raised TypeError.
Proof.
  intros column rows. induction rows as [|x rows IH]; intros acc a Hin Hnull;
    simpl; [contradiction|].
  destruct Hin as [->|Hin]; [now rewrite Hnull|].
  destruct (column x); [now apply (IH _ a) | reflexivity].
Qed.

(** X26: when a metrics record of a post of the period has no value for
    impressions, the summary raises TypeError. *)
Theorem summary_raises_on_null_impressions : forall db uid days now start_date a,
  datetime_add_days now (- days) = Returned start_date ->
  In a (summary_rows db (summary_posts db uid start_date now)) ->
  impressions a = None ->
  get_analytics_summary clicks db uid days now = Raised TypeError.
Proof.
  intros db uid days now start_date a Hstart Hin Hnull.
  unfold get_analytics_summary. rewrite Hstart. simpl.
  now rewrite (sum_from_null impressions _ 0 a Hin Hnull).
Qed.

End SummaryFacts.

Section SummaryEdge.

Variable clicks : Analytics -> option Z.

(** X27: for an account with no post published in the period the summary
    is all zeros, its engagement rate the integer 0 and its best performing
    post [None]: nothing is divided. *)
Theorem summary_of_nothing : forall db uid days now start_date,
  datetime_add_days now (- days) = Returned start_date ->
  (forall p, In p (posts db) -> published_between uid start_date now p = false) ->
  get_analytics_summary clicks db uid days now
  = Returned (mkSummary 0 0 0 0 0 0 (IntNumber 0) None).
Proof.
  intros db uid days now start_date Hstart Hnone.
  unfold get_analytics_summary. rewrite Hstart. simpl.
  unfold summary_posts. rewrite (filter_none _ _ _ Hnone).
  unfold summary_rows. simpl.
  rewrite (filter_none _ (fun _ => false) (analytics db)) by reflexivity.
  reflexivity.
Qed.

End SummaryEdge.

(** *** Examples *)

Lemma best_post_has_most_engagement_witness :
  exists top,
    (forall post e,
       In post (summary_posts example_summary_store 7 (example_now - 30 * US_PER_DAY)
                  example_now) ->
       engagement_in
         (summary_rows example_summary_store
            (summary_posts example_summary_store 7 (example_now - 30 * US_PER_DAY)
               example_now)) post e ->
       e <= top) /\
    0 < top /\
    exists post,
      In post (summary_posts example_summary_store 7 (example_now - 30 * US_PER_DAY)
                 example_now) /\
      post_id post = 2 /\
      engagement_in
        (summary_rows example_summary_store
           (summary_posts example_summary_store 7 (example_now - 30 * US_PER_DAY)
              example_now)) post top.
Proof.
  apply (best_post_has_most_engagement no_clicks example_summary_store 7 30 example_now
           (mkSummary 2 200 0 7 2 0
              (FloatNumber (S754_finite false 5066549580791808 (-50))) (Some 2))
           (example_now - 30 * US_PER_DAY)).
  - vm_compute. reflexivity.
  - vm_compute. reflexivity.
Defined.

Lemma summary_raises_on_null_impressions_witness :
  get_analytics_summary no_clicks example_null_store 7 30 example_now
  = Raised TypeError.
Proof.
  apply (summary_raises_on_null_impressions no_clicks example_null_store 7 30
           example_now (example_now - 30 * US_PER_DAY) example_null_row).
  - vm_compute. reflexivity.
  - vm_compute. right. left. reflexivity.
  - reflexivity.
Defined.

Lemma summary_of_nothing_witness :
  get_analytics_summary no_clicks example_posts 7 30 example_now
  = Returned (mkSummary 0 0 0 0 0 0 (IntNumber 0) None).
Proof.
  apply (summary_of_nothing no_clicks example_posts 7 30 example_now
           (example_now - 30 * US_PER_DAY)).
  - vm_compute. reflexivity.
  - intros p [<- | [<- | [<- | []]]]; reflexivity.
Defined.
